(** * MD2Slack: the Slack renderer of [md2slack/renderer.py]

    A shallow embedding of [SlackRenderer.render] and
    [SlackRenderer._format_table], with the pieces of Python's [str] and
    [re] libraries that the two methods call, followed by the properties of
    the renderer that the specification states. *)

From Stdlib Require Import ZArith NArith List String Ascii Lia DecimalString.
From stdpp Require Import base option list gmap strings.

Local Open Scope N_scope.

(** ** Python strings

    A Python [str] is a sequence of Unicode code points, and [len] counts
    code points; a text is therefore a list of code points, each one an [N]. *)
Module PyStr.

Abbreviation char := N.
Abbreviation str := (list N).

(** An ASCII literal of the source, as a text. *)
Definition u (s : string) : str :=
  map N_of_ascii (list_ascii_of_string s).

Definition newline : char := 10.
Definition space : char := 32.
Definition star : char := 42.
Definition dash : char := 45.
Definition gt : char := 62.
Definition pipe : char := 124.

(** [str.isspace] on one code point, which is also the class [\s] of a
    [str] pattern: the code points CPython lists as white space. *)
Definition isspace (c : char) : bool :=
  ((9 <=? c) && (c <=? 13)) || ((28 <=? c) && (c <=? 32))
  || (c =? 133) || (c =? 160) || (c =? 5760)
  || ((8192 <=? c) && (c <=? 8202))
  || (c =? 8232) || (c =? 8233) || (c =? 8239) || (c =? 8287)
  || (c =? 12288).

(** [s.lstrip], [s.rstrip] and [s.strip] over a class of characters. *)
Fixpoint lstrip_by (p : char -> bool) (s : str) : str :=
  match s with
  | c :: s' => if p c then lstrip_by p s' else s
  | [] => []
  end.

Definition rstrip_by (p : char -> bool) (s : str) : str :=
  reverse (lstrip_by p (reverse s)).

Definition strip_by (p : char -> bool) (s : str) : str :=
  rstrip_by p (lstrip_by p s).

(** [s.strip()]: white space on both ends. *)
Definition strip (s : str) : str := strip_by isspace s.

(** [s.strip(chars)]: every leading and trailing character of [chars]. *)
Definition strip_chars (chars : str) (s : str) : str :=
  strip_by (fun c => existsb (N.eqb c) chars) s.

(** [s.split(sep)] for a separator of one character: never empty. *)
Fixpoint split (sep : char) (s : str) : list str :=
  match s with
  | [] => [[]]
  | c :: s' =>
      if c =? sep then [] :: split sep s'
      else match split sep s' with
           | w :: ws => (c :: w) :: ws
           | [] => [[c]]
           end
  end.

(** [sep.join(parts)]. *)
Fixpoint join (sep : str) (parts : list str) : str :=
  match parts with
  | [] => []
  | [p] => p
  | p :: ps => p ++ sep ++ join sep ps
  end.

(** [c * n] for a string of one character. *)
Definition times (c : char) (n : nat) : str := replicate n c.

(** [s.ljust(width)]. *)
Definition ljust (s : str) (width : nat) : str :=
  s ++ times space (width - length s).

(** [f"{n}"] for an [int]: decimal digits, with a minus sign below zero. *)
Definition of_int (n : Z) : str :=
  u (NilZero.string_of_int (Z.to_int n)).

(** [max] over the values of a generator: [ValueError] on an empty one. *)
Definition py_max (l : list nat) : option nat :=
  match l with
  | [] => None
  | x :: l' => Some (fold_left Nat.max l' x)
  end.

(** [zip] over the unpacked rows: the tuples of i-th elements, as long as
    every row has one; no tuple at all for no rows. *)
Fixpoint zip_star {A} (rows : list (list A)) : list (list A) :=
  match rows with
  | [] => []
  | [r] => (fun x => [x]) <$> r
  | r :: rs => zip_with cons r (zip_star rs)
  end.

End PyStr.

(** ** The regular expressions of the renderer

    The patterns the renderer hands to [re] are few and fixed; each is
    written here as the backtracking matcher that [re] runs for it, built
    from a matcher per pattern element that takes the rest of the pattern
    as a continuation [k] on the text still to be read. *)
Module Re.
Import PyStr.

(** [\*{n}]: exactly [n] asterisks, then [k]. *)
Fixpoint stars {R} (n : nat) (k : str -> option R) (s : str) : option R :=
  match n with
  | O => k s
  | S n' =>
      match s with
      | c :: s' => if c =? star then stars n' k s' else None
      | [] => None
      end
  end.

(** [.] matches every character but a newline (no DOTALL flag). *)
Definition dot (c : char) : bool := negb (c =? newline).

(** [(.*?)] then [k]: the lazy quantifier tries [k] first and takes one
    more character only when [k] fails; the group is the text taken. *)
Fixpoint lazy_dots {R} (k : str -> option R) (s : str) : option (str * R) :=
  match k s with
  | Some r => Some ([], r)
  | None =>
      match s with
      | c :: s' =>
          if dot c then prod_map (cons c) id <$> lazy_dots k s' else None
      | [] => None
      end
  end.

(** [\*{n}(.+?)\*{n}] then [k], at the start of [s]: group 1 and the
    result of [k]. *)
Definition span {R} (n : nat) (k : str -> option R) (s : str)
  : option (str * R) :=
  stars n (fun s1 =>
    match s1 with
    | c :: s2 =>
        if dot c then prod_map (cons c) id <$> lazy_dots (stars n k) s2
        else None
    | [] => None
    end) s.

(** A greedy run of a character class at the end of a pattern: the longest
    prefix of [s] in the class. *)
Fixpoint greedy (p : char -> bool) (s : str) : str :=
  match s with
  | c :: s' => if p c then c :: greedy p s' else []
  | [] => []
  end.

(** End of the pattern under [re.fullmatch]: the text must be used up. *)
Definition at_end (s : str) : option unit :=
  match s with [] => Some () | _ => None end.

(** [$] (no MULTILINE flag): at the end of the text, or before a newline
    that ends it; the text from there on is returned. *)
Definition dollar (s : str) : option str :=
  match s with
  | [] => Some []
  | [c] => if c =? newline then Some s else None
  | _ => None
  end.

(** [re.fullmatch(r'\*{n}(.+?)\*{n}', s)], as the truth value the source
    tests. *)
Definition fullmatch_span (n : nat) (s : str) : bool :=
  bool_decide (is_Some (span n at_end s)).

(** [re.sub(r'^\*{n}(.+?)\*{n}$', r'\1', s)]: [^] lets the pattern match at
    the start of the text only; the match is replaced by its group 1 and
    what follows it is kept. *)
Definition sub_anchored_span (n : nat) (s : str) : str :=
  match span n dollar s with
  | Some (inner, rest) => inner ++ rest
  | None => s
  end.

(** The leftmost match of [\*{n}(.+?)\*{n}] in [s]: the text before it, its
    group 1, and the text after it. *)
Fixpoint find_span (n : nat) (s : str) : option (str * str * str) :=
  match span n Some s with
  | Some (inner, rest) => Some ([], inner, rest)
  | None =>
      match s with
      | c :: s' =>
          (fun '(pre, inner, rest) => (c :: pre, inner, rest))
            <$> find_span n s'
      | [] => None
      end
  end.

(** [re.search(r'\*{n}(.+?)\*{n}', s)], as a truth value. *)
Definition search_span (n : nat) (s : str) : bool :=
  bool_decide (is_Some (find_span n s)).

(** [re.sub(r'\*{n}(.+?)\*{n}', r'\1', s)]: every match, found from left to
    right and each search starting where the previous match ended, is
    replaced by its group 1; the text between the matches is kept.  A match
    is never empty, so [fuel] bounds the number of matches by the length of
    the text. *)
Fixpoint sub_span_from (fuel : nat) (n : nat) (s : str) : str :=
  match find_span n s with
  | Some (pre, inner, rest) =>
      match fuel with
      | O => s
      | S fuel' => pre ++ inner ++ sub_span_from fuel' n rest
      end
  | None => s
  end.

Definition sub_span (n : nat) (s : str) : str :=
  sub_span_from (length s) n s.

(** [re.sub(r'\*{1,3}', '', s)]: a run of one to three asterisks, as many
    as there are, is deleted; [room] is how many more asterisks the run
    being deleted may take. *)
Fixpoint sub_star_runs_from (room : nat) (s : str) : str :=
  match s with
  | [] => []
  | c :: s' =>
      if c =? star then
        match room with
        | O => sub_star_runs_from 2 s'
        | S room' => sub_star_runs_from room' s'
        end
      else c :: sub_star_runs_from 0 s'
  end.

Definition sub_star_runs (s : str) : str := sub_star_runs_from 0 s.

(** [re.match] with the pattern of the block quote branch: the start of
    the text, [\s*], group 1 (one [-] or [*]), [\s+], and group 2 (a greedy
    run of [.]).  [\s*] and [\s+] are greedy and a shorter run never helps:
    the character after a shorter [\s*] is white space, not a bullet, and
    group 2 matches whatever follows [\s+], up to the first newline. *)
Definition match_quote_list (s : str) : option (char * str) :=
  match lstrip_by isspace s with
  | c :: s1 =>
      if (c =? dash) || (c =? star) then
        match s1 with
        | w :: _ =>
            if isspace w
            then Some (c, greedy dot (lstrip_by isspace s1))
            else None
        | [] => None
        end
      else None
  | [] => None
  end.

End Re.

(** ** The renderer *)
Module SlackRenderer.
Import PyStr Re.
Local Open Scope string_scope.
Local Open Scope list_scope.

(** A token is a dictionary.  [type] is only compared with literals and is
    kept as the name it spells; [indent] and [raw] are read with a default
    and may be absent; the other fields are read with [token[...]] by the
    branches that need them, which raises when one is missing: the record
    carries them all, so that it stands for the tokens that have the fields
    their branch reads. *)
Record token := Token {
  type : string;
  indent : option nat;
  value : str;
  raw : option str;
  level : nat;
  number : Z;
  bullet : str
}.

(** The bullet of a list inside a quote, as the string literal of the
    source spells it: the three code points U+00E2, U+20AC, U+00A2. *)
Definition quote_bullet : str := [226; 8364; 162]%N.

(** The fence of a code block: three backquotes. *)
Definition fence : str := u "```".

(** *** [_format_table] *)

(** The comprehensions of the first two statements: the lines of the
    stripped markup that are not blank, each without the pipes at its two
    ends and split at the pipes left, every cell stripped. *)
Definition rows_raw (table_md : str) : list (list str) :=
  (fun row : str => split pipe (strip_chars [pipe] row))
    <$> filter (fun row => strip row <> []) (split newline (strip table_md)).

Definition rows (table_md : str) : list (list str) :=
  (fun row : list str => strip <$> row) <$> rows_raw table_md.

Definition padded_rows (max_cols : nat) (rows : list (list str))
  : list (list str) :=
  (fun row : list str => row ++ replicate (max_cols - length row) [])
    <$> rows.

(** The width of every column: [max] raises on a column without cells. *)
Definition col_widths (padded_rows : list (list str)) : option (list nat) :=
  mapM (fun column : list str => py_max (length <$> column))
       (zip_star padded_rows).

(** One row of the block; [col_widths[idx]] raises when [idx] is out of
    range. *)
Definition formatted_row (col_widths : list nat) (row : list str)
  : option str :=
  join (u " | ") <$>
    mapM (fun '(idx, cell) => ljust cell <$> col_widths !! idx)
         (imap pair row).

(** [None] stands for an exception raised on the way. *)
Definition _format_table (table_md : str) : option str :=
  let rows := rows table_md in
  match rows with
  | [] => Some (fence ++ [newline] ++ fence)
  | _ =>
      max_cols ← py_max (length <$> rows);
      let padded_rows := padded_rows max_cols rows in
      col_widths ← col_widths padded_rows;
      formatted_rows ← mapM (formatted_row col_widths) padded_rows;
      Some (fence ++ [newline] ++ join [newline] formatted_rows
              ++ [newline] ++ fence)
  end.

(** *** [render] *)

(** The seven-way test on [raw] of the HEADER branch, after the indent. *)
Definition header_text (raw value : str) : str :=
  if fullmatch_span 3 raw then
    u "*_" ++ sub_anchored_span 3 raw ++ u "_*"
  else if fullmatch_span 2 raw then
    u "*" ++ sub_anchored_span 2 raw ++ u "*"
  else if fullmatch_span 1 raw then
    u "*_" ++ sub_anchored_span 1 raw ++ u "_*"
  else if search_span 3 raw then
    u "*_" ++ sub_span 3 raw ++ u "_*"
  else if search_span 2 raw then
    u "*" ++ sub_span 2 raw ++ u "*"
  else if search_span 1 raw then
    u "*_" ++ sub_span 1 raw ++ u "_*"
  else
    u "*" ++ sub_star_runs value ++ u "*".

(** [x in [...]] on type names. *)
Definition is_in (x : string) (l : list string) : bool :=
  existsb (String.eqb x) l.

(** The statements before the dispatch: [list_counters.pop(indent_level,
    None)] under the two tests on the type. *)
Definition bookkeeping (token_type : string) (indent_level : nat)
    (list_counters : gmap nat Z) : gmap nat Z :=
  if is_in token_type ["UNORDERED_LIST"; "LETTERED_LIST"] then
    delete indent_level list_counters
  else if negb (is_in token_type
                  ["NUMBERED_LIST"; "PARAGRAPH"; "PARAGRAPH_BREAK"]) then
    delete indent_level list_counters
  else list_counters.

(** The body of the loop for one token: the counters after it and the entry
    it appends to [output]. *)
Definition render_token (list_counters : gmap nat Z) (token : token)
  : option (gmap nat Z * str) :=
  let indent_level := default 0%nat (indent token) in
  let indent_spaces := times space indent_level in
  let token_type := type token in
  let list_counters := bookkeeping token_type indent_level list_counters in
  if String.eqb token_type "HRULE" then
    Some (list_counters, [newline])
  else if String.eqb token_type "PARAGRAPH" then
    Some (list_counters, indent_spaces ++ value token)
  else if String.eqb token_type "PARAGRAPH_BREAK" then
    Some (list_counters, [newline])
  else if String.eqb token_type "CODE_BLOCK" then
    Some (list_counters, value token)
  else if String.eqb token_type "TABLE" then
    table_text ← _format_table (value token);
    Some (list_counters, table_text ++ [newline])
  else if String.eqb token_type "BLOCK_QUOTE" then
    let quote_prefix := times gt (level token) in
    match match_quote_list (value token) with
    | Some (_, list_content) =>
        Some (list_counters,
              quote_prefix ++ [space] ++ quote_bullet ++ [space]
                ++ list_content)
    | None =>
        Some (list_counters,
              quote_prefix ++ [space] ++ indent_spaces ++ value token)
    end
  else if String.eqb token_type "HEADER" then
    Some (list_counters,
          indent_spaces ++ header_text (default [] (raw token)) (value token))
  else if String.eqb token_type "NUMBERED_LIST" then
    let number := number token in
    let current_count := default 1%Z (list_counters !! indent_level) in
    let '(list_counters, bullet) :=
      if (number =? 1)%Z then
        (<[indent_level := 2%Z]> list_counters, u "1.")
      else if (number =? current_count)%Z then
        (<[indent_level := (number + 1)%Z]> list_counters,
         of_int number ++ u ".")
      else
        (<[indent_level := (number + 1)%Z]> list_counters,
         of_int number ++ u ".") in
    Some (list_counters, indent_spaces ++ bullet ++ [space] ++ value token)
  else if String.eqb token_type "LETTERED_LIST" then
    Some (list_counters,
          indent_spaces ++ bullet token ++ [space] ++ value token)
  else if String.eqb token_type "UNORDERED_LIST" then
    Some (list_counters,
          indent_spaces ++ bullet token ++ [space] ++ value token)
  else
    Some (list_counters, indent_spaces ++ value token).

(** The loop: the counters and the buffer [output] after the tokens. *)
Fixpoint render_loop (list_counters : gmap nat Z) (output : list str)
    (tokens : list token) : option (gmap nat Z * list str) :=
  match tokens with
  | [] => Some (list_counters, output)
  | token :: tokens' =>
      '(list_counters, entry) ← render_token list_counters token;
      render_loop list_counters (output ++ [entry]) tokens'
  end.

Definition render (tokens : list token) : option str :=
  '(_, output) ← render_loop ∅ [] tokens;
  Some (join [newline] output).

End SlackRenderer.

(** ** The entry of one token *)
Module Buffer.
Import PyStr SlackRenderer.

(** The entry of a token in [output], read off the body of the loop run
    from the counters the call starts with. *)
Definition entry (token : token) : str :=
  match render_token ∅ token with
  | Some (_, e) => e
  | None => []
  end.

End Buffer.

(** ** The table block, as the specification words it

    The second reading of [_format_table]: the steps 4 to 7 of the
    formatter as the specification describes them, column by column.  The
    theorems below compare it with the code. *)
Module TableSpec.
Import PyStr SlackRenderer.

(** The largest number of cells in a row. *)
Definition max_cols (rws : list (list str)) : nat :=
  max_list (length <$> rws).

(** A row padded on the right with empty cells up to [m] cells. *)
Definition pad (m : nat) (row : list str) : list str :=
  row ++ replicate (m - length row) [].

(** The width of column [j]: the length of its longest cell. *)
Definition col_width (prs : list (list str)) (j : nat) : nat :=
  max_list ((fun row : list str => length (nth j row [])) <$> prs).

Definition widths (rws : list (list str)) : list nat :=
  col_width (pad (max_cols rws) <$> rws) <$> seq 0 (max_cols rws).

(** A row rendered: every cell left-justified to the width of its column,
    the cells joined by a pipe between two spaces. *)
Definition row_text (ws : list nat) (row : list str) : str :=
  join (u " | ") (zip_with ljust row ws).

Definition body (rws : list (list str)) : list str :=
  (fun row => row_text (widths rws) (pad (max_cols rws) row)) <$> rws.

Definition block (rws : list (list str)) : str :=
  fence ++ [newline] ++ join [newline] (body rws) ++ [newline] ++ fence.

End TableSpec.


(** ** The statements under test, where the specification has its own words

    Readings taken from the specification rather than from the code, to be
    compared with the code by the theorems at the end. *)
Module Claimed.
Import PyStr Re SlackRenderer.
Local Open Scope string_scope.
Local Open Scope list_scope.

(** The bullet glyph the specification names: U+2022. *)
Definition bullet_glyph : str := [8226]%N.

(** Slack emphasis by the width of the asterisk span: bold for two
    asterisks, bold and italic for three or for one. *)
Definition emphasis (n : nat) (text : str) : str :=
  if Nat.eqb n 2 then u "*" ++ text ++ u "*" else u "*_" ++ text ++ u "_*".

(** [raw] is not wrapped as a whole in one, two or three asterisks, and
    the first span pattern found in it, trying the widths three, two, one in
    that order, has width [n]; the leftmost match of that width is [inner]
    between its asterisks, with [pre] before it and [rest] after it. *)
Definition embedded_span (raw : str) (n : nat) (pre inner rest : str)
  : Prop :=
  fullmatch_span 3 raw = false /\ fullmatch_span 2 raw = false
  /\ fullmatch_span 1 raw = false
  /\ n ∈ [3; 2; 1]%nat
  /\ (forall m, m ∈ [3; 2; 1]%nat -> (n < m)%nat -> search_span m raw = false)
  /\ find_span n raw = Some (pre, inner, rest).

(** One leading and one trailing occurrence of [c] removed, each only if
    it is there. *)
Definition strip_one (c : char) (s : str) : str :=
  let s1 := match s with
            | x :: s' => if (x =? c)%N then s' else s
            | [] => []
            end in
  match reverse s1 with
  | x :: r => if (x =? c)%N then reverse r else s1
  | [] => []
  end.

(** The cells of a line when one pipe at most goes at each end. *)
Definition cells_one_pipe (line : str) : list str :=
  strip <$> split pipe (strip_one pipe line).

End Claimed.

(** ** Facts about the string operations *)
Section PyStrFacts.
Import PyStr.

Lemma lstrip_by_all p s :
  Forall (fun c => p c = true) s -> lstrip_by p s = [].
Proof. induction 1 as [|c s Hc _ IH]; simpl; [done|]. by rewrite Hc. Qed.

Lemma lstrip_by_nil_inv p s :
  lstrip_by p s = [] -> Forall (fun c => p c = true) s.
Proof.
  induction s as [|c s IH]; simpl; [constructor|].
  destruct (p c) eqn:Hc; [|done]. intros H. constructor; auto.
Qed.

Lemma lstrip_by_stop p c s : p c = false -> lstrip_by p (c :: s) = c :: s.
Proof. intros H. simpl. by rewrite H. Qed.

Lemma lstrip_by_app_all p s1 s2 :
  Forall (fun c => p c = true) s1 -> lstrip_by p (s1 ++ s2) = lstrip_by p s2.
Proof. induction 1 as [|c s Hc _ IH]; simpl; [done|]. by rewrite Hc. Qed.

Lemma lstrip_by_suffix p s : suffix (lstrip_by p s) s.
Proof.
  induction s as [|c s IH]; simpl; [done|].
  destruct (p c); [by apply suffix_cons_r | done].
Qed.

Lemma strip_by_all p s :
  Forall (fun c => p c = true) s -> strip_by p s = [].
Proof.
  intros H. unfold strip_by, rstrip_by. by rewrite (lstrip_by_all p s H).
Qed.

Lemma lstrip_by_head p s c t : lstrip_by p s = c :: t -> p c = false.
Proof.
  induction s as [|e r IH]; simpl; [done|].
  destruct (p e) eqn:He; [done|]. by intros [= <- _].
Qed.

Lemma strip_by_nil_inv p s :
  strip_by p s = [] -> Forall (fun c => p c = true) s.
Proof.
  unfold strip_by, rstrip_by. intros H.
  apply (f_equal reverse) in H. rewrite reverse_involutive in H.
  apply lstrip_by_nil_inv in H. rewrite Forall_reverse in H.
  destruct (lstrip_by p s) as [|c t] eqn:E; [by apply lstrip_by_nil_inv|].
  apply lstrip_by_head in E. apply Forall_cons in H as [Hc _]. congruence.
Qed.

(** All the characters of the class at both ends go, however many. *)
Lemma strip_by_ends p a b x body :
  p x = true ->
  (forall c, head body = Some c -> p c = false) ->
  (forall c, last body = Some c -> p c = false) ->
  strip_by p (replicate a x ++ body ++ replicate b x) = body.
Proof.
  intros Hx Hhd Hlast. unfold strip_by, rstrip_by.
  assert (Hrep : forall n, Forall (fun c => p c = true) (replicate n x)).
  { intros n. apply Forall_replicate; done. }
  rewrite lstrip_by_app_all by apply Hrep.
  destruct body as [|c body].
  - simpl. rewrite (lstrip_by_all p (replicate b x)) by apply Hrep. done.
  - rewrite <- app_comm_cons, lstrip_by_stop by (apply Hhd; done).
    rewrite app_comm_cons, reverse_app.
    rewrite lstrip_by_app_all by (apply Forall_reverse, Hrep).
    destruct (reverse (c :: body)) as [|d t] eqn:E.
    + apply (f_equal length) in E. rewrite length_reverse in E. done.
    + assert (Hd : last (c :: body) = Some d).
      { rewrite <- (reverse_involutive (c :: body)), E, reverse_cons.
        apply last_snoc. }
      rewrite lstrip_by_stop by (apply Hlast; done).
      by rewrite <- E, reverse_involutive.
Qed.

Lemma split_not_nil sep s : split sep s <> [].
Proof.
  destruct s as [|c s]; simpl; [done|].
  destruct (c =? sep); [done|]. by destruct (split sep s).
Qed.

Lemma join_cons sep p ps :
  ps <> [] -> join sep (p :: ps) = p ++ sep ++ join sep ps.
Proof. by destruct ps. Qed.

Lemma join_split sep s : join [sep] (split sep s) = s.
Proof.
  induction s as [|c s IH]; simpl; [done|].
  destruct (N.eqb_spec c sep) as [->|Hne].
  - rewrite join_cons by apply split_not_nil. simpl. by rewrite IH.
  - pose proof (split_not_nil sep s) as Hnn.
    destruct (split sep s) as [|w ws]; [done|].
    destruct ws as [|w' ws]; simpl in *; by rewrite <- IH.
Qed.

Lemma split_free sep s : Forall (fun line => sep ∉ line) (split sep s).
Proof.
  induction s as [|c s IH]; simpl.
  - repeat constructor. apply not_elem_of_nil.
  - destruct (N.eqb_spec c sep) as [->|Hne].
    + constructor; [apply not_elem_of_nil | done].
    + destruct (split sep s) as [|w ws].
      * repeat constructor. intros H%list_elem_of_singleton. done.
      * apply Forall_cons in IH as [Hw Hws]. constructor; [|done].
        rewrite not_elem_of_cons. done.
Qed.

Lemma split_app_free sep l s :
  sep ∉ l -> split sep (l ++ sep :: s) = l :: split sep s.
Proof.
  induction l as [|c l IH]; simpl; intros H.
  - by rewrite N.eqb_refl.
  - apply not_elem_of_cons in H as [Hc Hl].
    destruct (N.eqb_spec c sep) as [->|_]; [done|]. by rewrite IH.
Qed.

Lemma split_one_free sep l : sep ∉ l -> split sep l = [l].
Proof.
  induction l as [|c l IH]; simpl; intros H; [done|].
  apply not_elem_of_cons in H as [Hc Hl].
  destruct (N.eqb_spec c sep) as [->|_]; [done|]. by rewrite IH.
Qed.

Lemma split_join sep ls :
  ls <> [] -> Forall (fun line => sep ∉ line) ls ->
  split sep (join [sep] ls) = ls.
Proof.
  induction ls as [|l ls IH]; [done|]. intros _ H.
  apply Forall_cons in H as [Hl Hls].
  destruct ls as [|l' ls]; [by apply split_one_free|].
  rewrite join_cons by done.
  change ([sep] ++ ?x) with (sep :: x).
  rewrite split_app_free by done. f_equal. by apply IH.
Qed.

Lemma length_join sep ls :
  length (join sep ls)
  = (sum_list (length <$> ls) + length sep * (length ls - 1))%nat.
Proof.
  induction ls as [|l ls IH]; simpl; [lia|].
  destruct ls as [|l' ls]; [simpl; lia|].
  rewrite !length_app, IH. simpl. lia.
Qed.

Lemma length_ljust s w : length (ljust s w) = (length s `max` w)%nat.
Proof. unfold ljust, times. rewrite length_app, length_replicate. lia. Qed.

Lemma py_max_Some l : l <> [] -> py_max l = Some (max_list l).
Proof.
  destruct l as [|x l]; [done|]. intros _. simpl. f_equal.
  revert x. induction l as [|y l IH]; intros x; simpl; [lia|].
  rewrite IH. lia.
Qed.

End PyStrFacts.

(** ** Facts about [_format_table] *)
Section TableFacts.
Import PyStr SlackRenderer.
Local Open Scope nat_scope.

Lemma zip_star_columns {A} (d : A) (m : nat) (rws : list (list A)) :
  rws <> [] -> Forall (fun r => length r = m) rws ->
  zip_star rws = (fun j => (fun r => nth j r d) <$> rws) <$> seq 0 m.
Proof.
  induction rws as [|r rs IH]; [done|]. intros _ Hlen.
  apply Forall_cons in Hlen as [Hr Hrs].
  apply list_eq. intros i.
  rewrite list_lookup_fmap.
  destruct rs as [|r' rs].
  - simpl zip_star. rewrite list_lookup_fmap.
    destruct (decide (i < m)) as [Hi|Hi].
    + rewrite lookup_seq_lt by done. simpl.
      rewrite nth_lookup.
      destruct (lookup_lt_is_Some_2 r i) as [x Hx]; [lia|]. by rewrite Hx.
    + rewrite lookup_seq_ge by lia. rewrite lookup_ge_None_2 by lia. done.
  - change (zip_star (r :: r' :: rs))
      with (zip_with cons r (zip_star (r' :: rs))).
    rewrite IH by done. rewrite lookup_zip_with, list_lookup_fmap.
    destruct (decide (i < m)) as [Hi|Hi].
    + rewrite lookup_seq_lt by done.
      destruct (lookup_lt_is_Some_2 r i) as [x Hx]; [lia|].
      rewrite Hx. simpl. by rewrite (nth_lookup r), Hx.
    + rewrite lookup_seq_ge by lia. rewrite lookup_ge_None_2 by lia. done.
Qed.

Lemma length_pad m row : length row <= m -> length (TableSpec.pad m row) = m.
Proof.
  intros H. unfold TableSpec.pad. rewrite length_app, length_replicate. lia.
Qed.

Lemma length_le_max_cols (rws : list (list str)) row :
  row ∈ rws -> length row <= TableSpec.max_cols rws.
Proof.
  intros H. apply max_list_elem_of_le, list_elem_of_fmap. eauto.
Qed.

Lemma padded_rows_pad m (rws : list (list str)) :
  padded_rows m rws = TableSpec.pad m <$> rws.
Proof. done. Qed.

Lemma padded_rectangular (rws : list (list str)) :
  Forall (fun r => length r = TableSpec.max_cols rws)
         (TableSpec.pad (TableSpec.max_cols rws) <$> rws).
Proof.
  apply Forall_fmap, Forall_forall. intros row Hrow. simpl.
  by apply length_pad, length_le_max_cols.
Qed.

Lemma col_widths_spec (rws : list (list str)) :
  rws <> [] ->
  col_widths (padded_rows (TableSpec.max_cols rws) rws)
  = Some (TableSpec.widths rws).
Proof.
  intros Hne. unfold col_widths, TableSpec.widths.
  rewrite padded_rows_pad.
  rewrite (zip_star_columns [] (TableSpec.max_cols rws));
    [|by destruct rws|apply padded_rectangular].
  apply mapM_Some_2, Forall2_fmap, Forall_Forall2_diag, Forall_forall.
  intros j _. rewrite py_max_Some by (by destruct rws).
  unfold TableSpec.col_width. by rewrite <- list_fmap_compose.
Qed.

Lemma formatted_row_spec (ws : list nat) (row : list str) :
  length row = length ws ->
  formatted_row ws row = Some (TableSpec.row_text ws row).
Proof.
  intros Hlen. unfold formatted_row, TableSpec.row_text.
  replace (mapM _ (imap pair row)) with (Some (zip_with ljust row ws));
    [done|].
  symmetry. apply mapM_Some_2, Forall2_same_length_lookup_2.
  - rewrite length_imap, length_zip_with. lia.
  - intros i [idx cell] y. rewrite list_lookup_imap, lookup_zip_with.
    destruct (row !! i) as [c|] eqn:Hc; [|done]. simpl.
    intros [= <- <-]. destruct (ws !! i); [|done]. simpl. by intros [= <-].
Qed.

Lemma length_widths (rws : list (list str)) :
  length (TableSpec.widths rws) = TableSpec.max_cols rws.
Proof. unfold TableSpec.widths. by rewrite length_fmap, length_seq. Qed.

(** Every row is rendered without an exception being raised, and the block
    is the one the column-by-column reading describes. *)
Lemma format_table_block (table_md : str) :
  rows table_md <> [] ->
  _format_table table_md = Some (TableSpec.block (rows table_md)).
Proof.
  intros Hne. unfold _format_table.
  destruct (rows table_md) as [|r rs] eqn:E; [done|]. rewrite <- E in *.
  set (rws := rows table_md) in *.
  rewrite py_max_Some by (by rewrite E). cbn [mbind option_bind].
  fold (TableSpec.max_cols rws). rewrite col_widths_spec by done.
  cbn [mbind option_bind].
  replace (mapM _ _) with (Some (TableSpec.body rws)); [done|].
  symmetry. apply mapM_Some_2. rewrite padded_rows_pad.
  unfold TableSpec.body. apply Forall2_fmap, Forall_Forall2_diag.
  apply Forall_forall. intros row Hrow.
  apply formatted_row_spec. rewrite length_widths.
  by apply length_pad, length_le_max_cols.
Qed.

Lemma format_table_total (table_md : str) :
  is_Some (_format_table table_md).
Proof.
  destruct (rows table_md) as [|r rs] eqn:E.
  - unfold _format_table. rewrite E. eauto.
  - rewrite format_table_block by (by rewrite E). eauto.
Qed.

End TableFacts.

(** ** Facts about [render] *)
Section RenderFacts.
Import PyStr Re SlackRenderer Buffer.
Local Open Scope string_scope.
Local Open Scope list_scope.

(** The entry a token appends does not depend on the counters, and no
    branch raises on a token that has its fields. *)
Lemma render_token_entry (c : gmap nat Z) (t : token) :
  exists c', render_token c t = Some (c', entry t).
Proof.
  unfold entry, render_token.
  destruct (format_table_total (value t)) as [tbl Htbl].
  repeat match goal with
  | |- context [String.eqb (type t) ?s] =>
      destruct (String.eqb (type t) s); [try (eexists; reflexivity)|]
  end.
  - rewrite Htbl. simpl. eauto.
  - destruct (match_quote_list (value t)) as [[g1 g2]|]; eauto.
  - repeat match goal with
    | |- context [Z.eqb ?a ?b] => destruct (Z.eqb a b)
    end; eauto.
  - eauto.
Qed.

Lemma render_loop_entries (c : gmap nat Z) (out : list str) (ts : list token) :
  exists c', render_loop c out ts = Some (c', out ++ (entry <$> ts)).
Proof.
  revert c out. induction ts as [|t ts IH]; intros c out; simpl.
  - rewrite app_nil_r. eauto.
  - destruct (render_token_entry c t) as [c1 ->]. simpl.
    destruct (IH c1 (out ++ [entry t])) as [c2 ->].
    rewrite <- app_assoc. eauto.
Qed.

(** [render] returns, and what it returns is the entries joined. *)
Lemma render_entries (ts : list token) :
  render ts = Some (join [newline] (entry <$> ts)).
Proof.
  unfold render. destruct (render_loop_entries ∅ [] ts) as [c ->]. done.
Qed.

(** The headers of the specification's examples. *)
Example header_two_asterisks :
  render [Token "HEADER" None (u "Title") (Some (u "**Title**")) 0 0 []]
  = Some (u "*Title*").
Proof. reflexivity. Qed.

Example header_three_asterisks :
  render [Token "HEADER" None (u "Title") (Some (u "***Title***")) 0 0 []]
  = Some (u "*_Title_*").
Proof. reflexivity. Qed.

Example header_no_emphasis :
  render [Token "HEADER" None (u "Title") (Some (u "Title")) 0 0 []]
  = Some (u "*Title*").
Proof. reflexivity. Qed.

Lemma join_snoc sep (ps : list str) (p : str) :
  ps <> [] -> join sep (ps ++ [p]) = join sep ps ++ sep ++ p.
Proof.
  induction ps as [|q ps IH]; [done|]. intros _.
  destruct ps as [|q' ps]; [done|].
  change ((q :: q' :: ps) ++ [p]) with (q :: ((q' :: ps) ++ [p])).
  rewrite join_cons by (simpl; done). rewrite IH by done.
  rewrite (join_cons sep q (q' :: ps)) by done. by rewrite <- !app_assoc.
Qed.

End RenderFacts.

(** ** Facts about the matchers *)
Section ReFacts.
Import PyStr Re.
Local Open Scope nat_scope.

Lemma stars_Some {R} n (k : str -> option R) s r :
  stars n k s = Some r ->
  exists s', s = replicate n star ++ s' /\ k s' = Some r.
Proof.
  revert s. induction n as [|n IH]; intros s; simpl.
  - intros H. by exists s.
  - destruct s as [|c s]; [done|].
    destruct (N.eqb_spec c star) as [->|_]; [|done].
    intros (s' & -> & Hk)%IH. by exists s'.
Qed.

Lemma lazy_dots_Some {R} (k : str -> option R) s g r :
  lazy_dots k s = Some (g, r) ->
  exists s', s = g ++ s' /\ k s' = Some r.
Proof.
  revert g. induction s as [|c s IH]; intros g; simpl.
  - destruct (k []) eqn:Hk; [|done]. intros [= <- <-]. by exists [].
  - destruct (k (c :: s)) eqn:Hk.
    + intros [= <- <-]. by exists (c :: s).
    + destruct (dot c); [|done].
      destruct (lazy_dots k s) as [[g' r']|]; [|done].
      intros [= <- <-]. destruct (IH g' eq_refl) as (s' & -> & Hk').
      by exists s'.
Qed.

(** A match of the span pattern is the asterisks, a group that is not
    empty, the asterisks again, and what the continuation accepts. *)
Lemma span_Some {R} n (k : str -> option R) s g r :
  span n k s = Some (g, r) ->
  exists s', s = replicate n star ++ g ++ replicate n star ++ s'
             /\ k s' = Some r /\ g <> [].
Proof.
  unfold span. intros (s1 & -> & H)%stars_Some.
  destruct s1 as [|c s2]; [done|]. destruct (dot c); [|done].
  destruct (lazy_dots (stars n k) s2) as [[g' r']|] eqn:E; [|done].
  injection H as <- <-.
  apply lazy_dots_Some in E as (s3 & -> & (s' & -> & Hk)%stars_Some).
  exists s'. by rewrite <- app_comm_cons.
Qed.

Lemma find_span_Some n s pre g rest :
  find_span n s = Some (pre, g, rest) ->
  s = pre ++ replicate n star ++ g ++ replicate n star ++ rest /\ g <> [].
Proof.
  revert pre. induction s as [|c s IH]; intros pre; simpl.
  - destruct (span n Some []) as [[g' r']|] eqn:E; [|done].
    intros [= <- <- <-]. by apply span_Some in E as (s' & Hs & [= ->] & Hg).
  - destruct (span n Some (c :: s)) as [[g' r']|] eqn:E.
    + intros [= <- <- <-].
      by apply span_Some in E as (s' & Hs & [= ->] & Hg).
    + destruct (find_span n s) as [[[pre' g'] rest']|]; [|done].
      intros [= <- <- <-]. destruct (IH pre' eq_refl) as [-> Hg]. done.
Qed.

Lemma find_span_shorter n s pre g rest :
  find_span n s = Some (pre, g, rest) -> length rest < length s.
Proof.
  intros [-> Hg]%find_span_Some. rewrite !length_app.
  destruct g; [done|]. simpl. lia.
Qed.

Lemma find_span_nil n : find_span n [] = None.
Proof. by destruct n. Qed.

Lemma sub_span_from_nil f n : sub_span_from f n [] = [].
Proof. destruct f; cbn -[find_span]; by rewrite find_span_nil. Qed.

(** The bound on the number of matches is never reached. *)
Lemma sub_span_from_fuel n f1 f2 s :
  length s <= f1 -> length s <= f2 ->
  sub_span_from f1 n s = sub_span_from f2 n s.
Proof.
  revert f2 s. induction f1 as [|f1 IH]; intros f2 s H1 H2.
  - destruct s; [|simpl in H1; lia]. by rewrite !sub_span_from_nil.
  - destruct f2 as [|f2].
    + destruct s; [|simpl in H2; lia]. by rewrite !sub_span_from_nil.
    + cbn -[find_span]. destruct (find_span n s) as [[[pre g] rest]|] eqn:E; [|done].
      apply find_span_shorter in E. do 2 f_equal. apply IH; lia.
Qed.

(** The substitution, one match at a time: the text before the leftmost
    match is kept, the match gives its group, and the substitution goes
    on in the text after the match. *)
Lemma sub_span_match n s pre g rest :
  find_span n s = Some (pre, g, rest) ->
  sub_span n s = pre ++ g ++ sub_span n rest.
Proof.
  intros E. unfold sub_span.
  pose proof (find_span_shorter _ _ _ _ _ E) as Hlt.
  destruct (length s) as [|f] eqn:Hlen; [lia|].
  cbn -[find_span]. rewrite E. do 2 f_equal. apply sub_span_from_fuel; lia.
Qed.

Lemma sub_span_no_match n s : find_span n s = None -> sub_span n s = s.
Proof.
  intros E. unfold sub_span.
  destruct (length s); cbn -[find_span]; by rewrite E.
Qed.

Lemma search_span_true n s pre g rest :
  find_span n s = Some (pre, g, rest) -> search_span n s = true.
Proof. intros E. unfold search_span. rewrite E. by apply bool_decide_eq_true. Qed.

Lemma stars_replicate {R} n (k : str -> option R) s :
  stars n k (replicate n star ++ s) = k s.
Proof. induction n as [|n IH]; simpl; done. Qed.

Lemma lazy_dots_dots {R} (k : str -> option R) s g r :
  lazy_dots k s = Some (g, r) -> Forall (fun c => dot c = true) g.
Proof.
  revert g. induction s as [|c s IH]; intros g; simpl.
  - destruct (k []); [|done]. by intros [= <- <-].
  - destruct (k (c :: s)); [by intros [= <- <-]|].
    destruct (dot c) eqn:Hc; [|done].
    destruct (lazy_dots k s) as [[g' r']|]; [|done].
    intros [= <- <-]. constructor; [done|]. by apply IH.
Qed.

(** The lazy run finds a match whenever some run of [.] leads to one. *)
Lemma lazy_dots_complete {R} (k : str -> option R) g s :
  Forall (fun c => dot c = true) g -> is_Some (k s) ->
  is_Some (lazy_dots k (g ++ s)).
Proof.
  intros Hg Hk. induction Hg as [|c g Hc _ IH].
  - destruct Hk as [r Hr]. destruct s; simpl; rewrite Hr; eauto.
  - simpl. destruct (k (c :: g ++ s)); [eauto|].
    rewrite Hc. destruct IH as [[g' r'] ->]. simpl. eauto.
Qed.

Lemma span_dots {R} n (k : str -> option R) s g r :
  span n k s = Some (g, r) -> Forall (fun c => dot c = true) g.
Proof.
  unfold span. intros (s1 & -> & H)%stars_Some.
  destruct s1 as [|c s2]; [done|]. destruct (dot c) eqn:Hc; [|done].
  destruct (lazy_dots (stars n k) s2) as [[g' r']|] eqn:E; [|done].
  injection H as <- <-. constructor; [done|]. by apply lazy_dots_dots in E.
Qed.

Lemma span_complete {R} n (k : str -> option R) g s :
  g <> [] -> Forall (fun c => dot c = true) g -> is_Some (k s) ->
  is_Some (span n k (replicate n star ++ g ++ replicate n star ++ s)).
Proof.
  intros Hne Hg Hk. unfold span. rewrite stars_replicate.
  destruct g as [|c g]; [done|]. apply Forall_cons in Hg as [Hc Hg].
  rewrite <- app_comm_cons, Hc.
  destruct (lazy_dots_complete (stars n k) g (replicate n star ++ s) Hg)
    as [[g' r'] ->]; [by rewrite stars_replicate|].
  simpl. eauto.
Qed.

(** [re.fullmatch] with the span pattern: the text is a group without a
    newline, not empty, between [n] asterisks on each side. *)
Lemma fullmatch_span_iff n s :
  fullmatch_span n s = true
  <-> exists inner, inner <> [] /\ Forall (fun c => dot c = true) inner
                    /\ s = replicate n star ++ inner ++ replicate n star.
Proof.
  unfold fullmatch_span. rewrite bool_decide_eq_true. split.
  - intros [[g []] E]. exists g.
    pose proof (span_dots _ _ _ _ _ E) as Hd.
    apply span_Some in E as (s' & -> & Hend & Hne).
    destruct s'; [|done]. by rewrite app_nil_r.
  - intros (inner & Hne & Hd & ->).
    rewrite <- (app_nil_r (replicate n star)) at 2.
    by apply span_complete.
Qed.

Lemma find_span_dots n s pre g rest :
  find_span n s = Some (pre, g, rest) -> Forall (fun c => dot c = true) g.
Proof.
  revert pre. induction s as [|c s IH]; intros pre; simpl.
  - destruct (span n Some []) as [[g' r']|] eqn:E; [|done].
    intros [= <- <- <-]. by apply span_dots in E.
  - destruct (span n Some (c :: s)) as [[g' r']|] eqn:E.
    + intros [= <- <- <-]. by apply span_dots in E.
    + destruct (find_span n s) as [[[pre' g'] rest']|]; [|done].
      intros [= <- <- <-]. by apply (IH pre').
Qed.

(** [re.search] with the span pattern: somewhere in the text stands a
    group without a newline, not empty, between [n] asterisks on each
    side. *)
Lemma search_span_iff n s :
  search_span n s = true
  <-> exists pre inner rest,
        inner <> [] /\ Forall (fun c => dot c = true) inner
        /\ s = pre ++ replicate n star ++ inner ++ replicate n star ++ rest.
Proof.
  unfold search_span. rewrite bool_decide_eq_true. split.
  - intros [[[pre g] rest] E]. exists pre, g, rest.
    pose proof (find_span_dots _ _ _ _ _ E).
    by apply find_span_Some in E as [-> Hne].
  - intros (pre & inner & rest & Hne & Hd & ->).
    assert (Hs : is_Some (span n Some
              (replicate n star ++ inner ++ replicate n star ++ rest)))
      by (apply span_complete; [done|done|by eexists]).
    induction pre as [|c pre IH].
    + destruct Hs as [[g r] Hspan]. rewrite app_nil_l.
      destruct (_ ++ _); simpl; rewrite Hspan; eauto.
    + simpl. destruct (span n Some (c :: _)) as [[g1 r1]|]; [eauto|].
      destruct IH as [[[pre2 g2] rest2] ->]. simpl. eauto.
Qed.

(** Deleting the runs of one to three asterisks deletes every asterisk. *)
Lemma sub_star_runs_from_filter room s :
  sub_star_runs_from room s = filter (fun c => c <> star) s.
Proof.
  revert room. induction s as [|c s IH]; intros room; simpl; [done|].
  destruct (N.eqb_spec c star) as [->|Hc].
  - rewrite filter_cons_False by (intros H; by apply H).
    destruct room; apply IH.
  - rewrite filter_cons_True by done. by rewrite IH.
Qed.

Lemma greedy_all p s : Forall (fun c => p c = true) s -> greedy p s = s.
Proof. induction 1 as [|c s Hc _ IH]; simpl; [done|]. by rewrite Hc, IH. Qed.

(** The bullet pattern on a text that has the shape it describes. *)
Lemma match_quote_list_shape ws b w ws' content :
  Forall (fun c => isspace c = true) ws ->
  b = dash \/ b = star ->
  isspace w = true ->
  Forall (fun c => isspace c = true) ws' ->
  (forall c, head content = Some c -> isspace c = false) ->
  match_quote_list (ws ++ b :: w :: ws' ++ content)
  = Some (b, greedy dot content).
Proof.
  intros Hws Hb Hw Hws' Hc. unfold match_quote_list.
  rewrite lstrip_by_app_all by done.
  assert (isspace b = false) as Hsb by (by destruct Hb as [->| ->]).
  rewrite lstrip_by_stop by done.
  assert ((b =? dash)%N || (b =? star)%N = true) as ->
    by (by destruct Hb as [->| ->]).
  rewrite Hw. do 2 f_equal.
  change (w :: ws' ++ content) with ((w :: ws') ++ content).
  rewrite lstrip_by_app_all by (by constructor).
  destruct content as [|c content]; [done|].
  by rewrite lstrip_by_stop by (by apply Hc).
Qed.

End ReFacts.

(** ** The claims *)
Section Claims.
Import PyStr Re SlackRenderer Buffer Claimed.
Local Open Scope string_scope.
Local Open Scope list_scope.

(** A token whose entry is known gives that entry wherever it stands in
    the sequence. *)
Lemma render_around (t : token) (ts1 ts2 : list token) :
  render (ts1 ++ t :: ts2)
  = Some (join [newline] ((entry <$> ts1) ++ entry t :: (entry <$> ts2))).
Proof. by rewrite render_entries, fmap_app. Qed.

Lemma entry_eq (t : token) (c c' : gmap nat Z) (e : str) :
  render_token c t = Some (c', e) -> entry t = e.
Proof.
  intros H. destruct (render_token_entry c t) as [c'' H']. congruence.
Qed.

(** The entry of a block quote whose value has the shape of the bullet
    pattern: the prefix, a space, the bullet literal of the source, a space
    and the content up to its first newline. *)
Lemma block_quote_list_entry (t : token) ws b w ws' content :
  type t = "BLOCK_QUOTE" ->
  value t = ws ++ b :: w :: ws' ++ content ->
  Forall (fun c => isspace c = true) ws ->
  b = dash \/ b = star ->
  isspace w = true ->
  Forall (fun c => isspace c = true) ws' ->
  (forall c, head content = Some c -> isspace c = false) ->
  entry t = times gt (level t) ++ [space] ++ quote_bullet ++ [space]
              ++ greedy dot content.
Proof.
  intros Hty Hv Hws Hb Hw Hws' Hc. unfold entry, render_token.
  rewrite Hty, Hv. cbn [String.eqb Ascii.eqb Bool.eqb].
  by rewrite match_quote_list_shape.
Qed.

(** C1, at the input the specification gives: a BLOCK_QUOTE token of level
    2 and value [- sub item] renders as the quote prefix, a space, the three
    code points U+00E2 U+20AC U+00A2 that the literal of the source holds, a
    space and the content; this is not the line with the bullet glyph
    U+2022 that the specification states. *)
Theorem C1_block_quote_bullet_line :
  render [Token "BLOCK_QUOTE" None (u "- sub item") None 2 0 []]
  = Some (u ">> " ++ [226; 8364; 162]%N ++ u " sub item")
  /\ render [Token "BLOCK_QUOTE" None (u "- sub item") None 2 0 []]
     <> Some (u ">> " ++ bullet_glyph ++ u " sub item").
Proof. split; [by vm_compute | by vm_compute]. Qed.

(** C2, as stated, fails: the header whose raw text is
    [Hello ***World*** foo] has an embedded span of three asterisks around
    [World], yet the text around the span is in the output. *)
Lemma C2_counterexample :
  embedded_span (u "Hello ***World*** foo") 3
                (u "Hello ") (u "World") (u " foo")
  /\ render [Token "HEADER" None (u "Hello World foo")
                   (Some (u "Hello ***World*** foo")) 0 0 []]
     = Some (u "*_Hello World foo_*")
  /\ render [Token "HEADER" None (u "Hello World foo")
                   (Some (u "Hello ***World*** foo")) 0 0 []]
     <> Some (emphasis 3 (u "World")).
Proof.
  split; [|split; by vm_compute].
  repeat split; try by vm_compute.
  - set_solver.
  - intros m Hm Hlt. exfalso.
    repeat (apply elem_of_cons in Hm as [->|Hm]; [lia|]).
    by apply elem_of_nil in Hm.
Qed.

Lemma header_text_embedded raw value n pre inner rest :
  embedded_span raw n pre inner rest ->
  header_text raw value = emphasis n (pre ++ inner ++ sub_span n rest).
Proof.
  intros (F3 & F2 & F1 & Hn & Hfirst & Hfind).
  unfold header_text. rewrite F3, F2, F1.
  rewrite <- (sub_span_match _ _ _ _ _ Hfind).
  pose proof (search_span_true _ _ _ _ _ Hfind) as Hs.
  repeat (apply elem_of_cons in Hn as [->|Hn]).
  - by rewrite Hs.
  - rewrite (Hfirst 3%nat) by (set_solver || lia). by rewrite Hs.
  - rewrite (Hfirst 3%nat), (Hfirst 2%nat) by (set_solver || lia).
    by rewrite Hs.
  - by apply elem_of_nil in Hn.
Qed.

(** C2, amended: for a HEADER token whose raw text is not wrapped as a
    whole in one, two or three asterisks and holds an embedded span, render
    emits, after the indent spaces, the raw text with the asterisks of the
    spans taken out: the text before the first span, its inner text, and
    the text after it with the later spans of the same width replaced by
    their inner text the same way; the whole is bold and italic for a span
    of three or of one asterisk and bold for a span of two. *)
Theorem C2_header_embedded_span (t : token) (n : nat) (pre inner rest : str)
    (ts1 ts2 : list token) :
  type t = "HEADER" ->
  embedded_span (default [] (raw t)) n pre inner rest ->
  render (ts1 ++ t :: ts2)
  = Some (join [newline]
            ((entry <$> ts1)
             ++ (times space (default 0%nat (indent t))
                 ++ emphasis n (pre ++ inner ++ sub_span n rest))
             :: (entry <$> ts2))).
Proof.
  intros Hty Hspan. rewrite render_around. do 4 f_equal.
  unfold entry, render_token. rewrite Hty. cbn [String.eqb Ascii.eqb Bool.eqb].
  by rewrite (header_text_embedded _ _ _ _ _ _ Hspan).
Qed.

Lemma C2_header_embedded_span_witness :
  render [Token "HEADER" (Some 2%nat) (u "a b c")
                (Some (u "a **b** c **d**")) 0 0 []]
  = Some (u "  *a b c d*").
Proof.
  apply (C2_header_embedded_span
           (Token "HEADER" (Some 2%nat) (u "a b c")
                  (Some (u "a **b** c **d**")) 0 0 [])
           2 (u "a ") (u "b") (u " c **d**") [] []).
  - reflexivity.
  - repeat split; try by vm_compute.
    + set_solver.
    + intros m Hm Hlt.
      repeat (apply elem_of_cons in Hm as [->|Hm];
                [first [lia | by vm_compute]|]).
      by apply elem_of_nil in Hm.
Defined.

(** C3, as stated, fails: on the line [||a||] the code removes both pipes
    at each end and finds one cell, where removing one pipe at each end
    leaves three. *)
Lemma C3_counterexample :
  rows (u "||a||") = [[u "a"]]
  /\ cells_one_pipe (u "||a||") = [[]; u "a"; []]
  /\ rows (u "||a||") <> [cells_one_pipe (u "||a||")].
Proof. by vm_compute. Qed.

Lemma strip_chars_pipes a b body :
  head body <> Some pipe -> last body <> Some pipe ->
  strip_chars [pipe] (replicate a pipe ++ body ++ replicate b pipe) = body.
Proof.
  intros Hhd Hlast. unfold strip_chars. apply strip_by_ends; [done|..];
    intros c Hc; simpl; rewrite orb_false_r; apply N.eqb_neq; congruence.
Qed.

(** C3, amended: for every line of the stripped markup that is not blank,
    every leading and every trailing pipe character is removed, however
    many there are, before the rest is split at the pipes left into cells
    and every cell is stripped of white space. *)
Theorem C3_all_end_pipes_stripped (table_md : str) (i a b : nat)
    (body : str) :
  filter (fun line => strip line <> []) (split newline (strip table_md)) !! i
  = Some (replicate a pipe ++ body ++ replicate b pipe) ->
  head body <> Some pipe -> last body <> Some pipe ->
  rows table_md !! i = Some (strip <$> split pipe body).
Proof.
  intros Hline Hhd Hlast. unfold rows, rows_raw.
  rewrite !list_lookup_fmap, Hline. simpl.
  by rewrite strip_chars_pipes.
Qed.

Lemma C3_all_end_pipes_stripped_witness :
  rows (u "x|y" ++ [newline] ++ u "||a | b|||") !! 1%nat
  = Some [u "a"; u "b"].
Proof.
  apply (C3_all_end_pipes_stripped
           (u "x|y" ++ [newline] ++ u "||a | b|||") 1 2 3 (u "a | b")).
  - by vm_compute.
  - by vm_compute.
  - by vm_compute.
Defined.

End Claims.

Section ClaimsRender.
Import PyStr Re SlackRenderer Buffer Claimed.
Local Open Scope string_scope.
Local Open Scope list_scope.

Lemma entry_blank_line (t : token) :
  type t = "HRULE" \/ type t = "PARAGRAPH_BREAK" -> entry t = [newline].
Proof. intros [H|H]; unfold entry, render_token; by rewrite H. Qed.

(** C4: the entry of an HRULE or PARAGRAPH_BREAK token in the buffer is one
    newline character, it is the only entry of the token, and the output is
    the entries joined by one newline between two of them, nothing after
    the last: appended to a sequence that is not empty, such a token adds
    the separating newline and its own newline to the output, and alone it
    gives one newline. *)
Theorem C4_blank_line_entry (t : token) (ts1 ts2 : list token) :
  type t = "HRULE" \/ type t = "PARAGRAPH_BREAK" ->
  (forall c, exists c', render_token c t = Some (c', [newline]))
  /\ render (ts1 ++ t :: ts2)
     = Some (join [newline]
               ((entry <$> ts1) ++ [newline] :: (entry <$> ts2)))
  /\ render [t] = Some [newline]
  /\ (ts1 <> [] ->
      exists out, render ts1 = Some out
                  /\ render (ts1 ++ [t]) = Some (out ++ [newline] ++ [newline])).
Proof.
  intros Hty. pose proof (entry_blank_line t Hty) as He.
  split; [|split; [|split]].
  - intros c. rewrite <- He. apply render_token_entry.
  - by rewrite render_around, He.
  - by rewrite render_entries; simpl; rewrite He.
  - intros Hne. exists (join [newline] (entry <$> ts1)).
    split; [apply render_entries|].
    rewrite render_entries, fmap_app. simpl. rewrite He.
    rewrite join_snoc; [done|]. by destruct ts1.
Qed.

Lemma C4_blank_line_entry_witness :
  render [Token "PARAGRAPH" None (u "a") None 0 0 [];
          Token "HRULE" None [] None 0 0 [];
          Token "PARAGRAPH" None (u "b") None 0 0 []]
  = Some (u "a" ++ [newline] ++ [newline] ++ [newline] ++ u "b").
Proof.
  apply (C4_blank_line_entry (Token "HRULE" None [] None 0 0 [])
           [Token "PARAGRAPH" None (u "a") None 0 0 []]
           [Token "PARAGRAPH" None (u "b") None 0 0 []]).
  left. reflexivity.
Defined.

Lemma of_int_1 : of_int 1 = u "1".
Proof. reflexivity. Qed.

(** C5: a NUMBERED_LIST token renders as the indent spaces, its own number
    in decimal, a full stop, a space and its value, whatever the counters
    hold before it, and the counter of its indent level is its number plus
    one after it, the other counters being left as they were. *)
Theorem C5_numbered_list (t : token) (c : gmap nat Z) (ts1 ts2 : list token) :
  type t = "NUMBERED_LIST" ->
  render_token c t
  = Some (<[default 0%nat (indent t) := (number t + 1)%Z]> c,
          times space (default 0%nat (indent t))
            ++ of_int (number t) ++ u ". " ++ value t)
  /\ render (ts1 ++ t :: ts2)
     = Some (join [newline]
               ((entry <$> ts1)
                ++ (times space (default 0%nat (indent t))
                      ++ of_int (number t) ++ u ". " ++ value t)
                :: (entry <$> ts2))).
Proof.
  intros Hty.
  assert (H : render_token c t
    = Some (<[default 0%nat (indent t) := (number t + 1)%Z]> c,
            times space (default 0%nat (indent t))
              ++ of_int (number t) ++ u ". " ++ value t)).
  { unfold render_token, bookkeeping. rewrite Hty.
    cbn [String.eqb Ascii.eqb Bool.eqb is_in existsb orb negb].
    destruct (Z.eqb_spec (number t) 1) as [->|_].
    - by rewrite of_int_1.
    - destruct (Z.eqb (number t) _); by rewrite <- !app_assoc. }
  split; [done|]. rewrite render_around. by rewrite (entry_eq _ _ _ _ H).
Qed.

Lemma C5_numbered_list_witness :
  render_token {[0%nat := 7%Z]} (Token "NUMBERED_LIST" None (u "Item") None 0 3 [])
  = Some ({[0%nat := 4%Z]}, u "3. Item").
Proof.
  replace ({[0%nat := 4%Z]} : gmap nat Z)
    with (<[0%nat := 4%Z]> ({[0%nat := 7%Z]} : gmap nat Z))
    by apply insert_singleton_eq.
  apply (C5_numbered_list (Token "NUMBERED_LIST" None (u "Item") None 0 3 [])
           {[0%nat := 7%Z]} [] []).
  reflexivity.
Defined.

(** C6: on a token of type PARAGRAPH or PARAGRAPH_BREAK the bookkeeping and
    the whole body of the loop leave the counters as they are; on a token
    of any other type but NUMBERED_LIST (UNORDERED_LIST and LETTERED_LIST
    among them) the bookkeeping removes the counter of the indent level of
    the token, and the counters after the token are the counters before it
    without that entry. *)
Theorem C6_counter_bookkeeping (t : token) (c : gmap nat Z) :
  type t <> "NUMBERED_LIST" ->
  bookkeeping (type t) (default 0%nat (indent t)) c
  = (if is_in (type t) ["PARAGRAPH"; "PARAGRAPH_BREAK"] then c
     else delete (default 0%nat (indent t)) c)
  /\ render_token c t
     = Some (if is_in (type t) ["PARAGRAPH"; "PARAGRAPH_BREAK"] then c
             else delete (default 0%nat (indent t)) c,
             entry t).
Proof.
  intros Hty.
  assert (Hb : bookkeeping (type t) (default 0%nat (indent t)) c
    = (if is_in (type t) ["PARAGRAPH"; "PARAGRAPH_BREAK"] then c
       else delete (default 0%nat (indent t)) c)).
  { unfold bookkeeping, is_in. simpl existsb.
    destruct (String.eqb_spec (type t) "NUMBERED_LIST"); [done|].
    destruct (String.eqb_spec (type t) "UNORDERED_LIST") as [->|_]; [done|].
    destruct (String.eqb_spec (type t) "LETTERED_LIST") as [->|_]; [done|].
    simpl.
    destruct (String.eqb (type t) "PARAGRAPH"); [done|].
    by destruct (String.eqb (type t) "PARAGRAPH_BREAK"). }
  split; [done|].
  destruct (render_token_entry c t) as [c' H]. rewrite H. do 2 f_equal.
  rewrite <- Hb. revert H. unfold render_token.
  destruct (String.eqb_spec (type t) "NUMBERED_LIST"); [done|].
  destruct (_format_table (value t)); simpl;
  destruct (match_quote_list (value t)) as [[??]|];
  repeat match goal with
  | |- context [String.eqb (type t) ?s] => destruct (String.eqb (type t) s)
  end; congruence.
Qed.

Lemma C6_counter_bookkeeping_witness :
  render_token {[0%nat := 4%Z; 2%nat := 3%Z]}
               (Token "UNORDERED_LIST" (Some 2%nat) (u "x") None 0 0 (u "-"))
  = Some ({[0%nat := 4%Z]}, u "  - x").
Proof.
  assert (E : ({[0%nat := 4%Z]} : gmap nat Z)
              = delete 2%nat {[0%nat := 4%Z; 2%nat := 3%Z]}).
  { by vm_compute. }
  rewrite E.
  apply (C6_counter_bookkeeping
           (Token "UNORDERED_LIST" (Some 2%nat) (u "x") None 0 0 (u "-"))
           {[0%nat := 4%Z; 2%nat := 3%Z]}).
  discriminate.
Defined.

Lemma entry_paragraph (t : token) :
  type t = "PARAGRAPH" ->
  entry t = times space (default 0%nat (indent t)) ++ value t.
Proof. intros H. unfold entry, render_token. by rewrite H. Qed.

(** C7: on a sequence of PARAGRAPH tokens render returns the values of the
    tokens, each after as many spaces as its indent (none when the token
    has no indent), joined by single newlines. *)
Theorem C7_paragraphs (ts : list token) :
  Forall (fun t => type t = "PARAGRAPH") ts ->
  render ts
  = Some (join [newline]
            ((fun t => times space (default 0%nat (indent t)) ++ value t)
               <$> ts)).
Proof.
  intros H. rewrite render_entries. do 2 f_equal.
  apply Forall_fmap_ext_1. eapply Forall_impl; [exact H|].
  intros t Ht. by apply entry_paragraph.
Qed.

Lemma C7_paragraphs_witness :
  render [Token "PARAGRAPH" (Some 2%nat) (u "a") None 0 0 [];
          Token "PARAGRAPH" None (u "b c") None 0 0 []]
  = Some (u "  a" ++ [newline] ++ u "b c").
Proof.
  apply (C7_paragraphs
           [Token "PARAGRAPH" (Some 2%nat) (u "a") None 0 0 [];
            Token "PARAGRAPH" None (u "b c") None 0 0 []]).
  repeat constructor.
Defined.

End ClaimsRender.

Section ClaimsTable.
Import PyStr Re SlackRenderer Buffer Claimed.
Local Open Scope string_scope.
Local Open Scope list_scope.
Local Open Scope nat_scope.

(** C8: when the markup has a row, the code pads every row with empty
    cells to the largest cell count, takes as the width of a column the
    length of its longest cell over the padded rows, and renders each row
    as its cells left-justified to these widths and joined by a pipe
    between two spaces, the rows standing between the two fences; no step
    raises.  The rows [a, bb] and [ccc, d] give the widths 3 and 2 and the
    two lines of the specification. *)
Theorem C8_table_block (table_md : str) :
  rows table_md <> [] ->
  (py_max (length <$> rows table_md)
     = Some (TableSpec.max_cols (rows table_md))
   /\ padded_rows (TableSpec.max_cols (rows table_md)) (rows table_md)
      = TableSpec.pad (TableSpec.max_cols (rows table_md)) <$> rows table_md
   /\ col_widths (padded_rows (TableSpec.max_cols (rows table_md))
                              (rows table_md))
      = Some (TableSpec.widths (rows table_md))
   /\ _format_table table_md = Some (TableSpec.block (rows table_md)))
  /\ (rows (u "a|bb" ++ [newline] ++ u "ccc|d")
        = [[u "a"; u "bb"]; [u "ccc"; u "d"]]
      /\ TableSpec.widths [[u "a"; u "bb"]; [u "ccc"; u "d"]] = [3; 2]
      /\ _format_table (u "a|bb" ++ [newline] ++ u "ccc|d")
         = Some (join [newline]
                   [fence; u "a   | bb"; u "ccc | d "; fence])).
Proof.
  intros Hne. split; [|by vm_compute].
  split; [|split; [|split]].
  - apply py_max_Some. by destruct (rows table_md).
  - done.
  - by apply col_widths_spec.
  - by apply format_table_block.
Qed.

Lemma C8_table_block_witness :
  _format_table (u "| a | bb | c |" ++ [newline] ++ u "| ccc | d |")
  = Some (join [newline] [fence; u "a   | bb | c"; u "ccc | d  |  "; fence]).
Proof.
  apply (C8_table_block
           (u "| a | bb | c |" ++ [newline] ++ u "| ccc | d |")).
  by vm_compute.
Defined.

Lemma Forall_join {P : N -> Prop} (sep : str) (ls : list str) :
  Forall P sep -> Forall (Forall P) ls -> Forall P (join sep ls).
Proof.
  intros Hsep. induction 1 as [|l ls Hl Hls IH]; simpl; [done|].
  destruct ls as [|l' ls]; [done|].
  apply Forall_app. split; [done|]. apply Forall_app. by split.
Qed.

Lemma blank_lines_all_space (s : str) :
  Forall (fun line => strip line = []) (split newline s) ->
  Forall (fun c => isspace c = true) s.
Proof.
  intros H. rewrite <- (join_split newline s).
  apply Forall_join; [by repeat constructor|].
  eapply Forall_impl; [exact H|]. intros line. apply strip_by_nil_inv.
Qed.

(** C9: on a markup without a line that is not blank (the empty markup,
    or white space only) the formatter returns the two fences with one
    newline between them, and raises nothing. *)
Theorem C9_empty_table (table_md : str) :
  Forall (fun line => strip line = []) (split newline table_md) ->
  _format_table table_md = Some (fence ++ [newline] ++ fence).
Proof.
  intros H%blank_lines_all_space.
  unfold _format_table, rows, rows_raw, strip.
  by rewrite (strip_by_all _ _ H).
Qed.

Lemma C9_empty_table_witness :
  _format_table (u "  " ++ [newline] ++ [9%N; 32%N] ++ [newline])
  = Some (u "```" ++ [newline] ++ u "```").
Proof.
  apply (C9_empty_table (u "  " ++ [newline] ++ [9%N; 32%N] ++ [newline])).
  repeat constructor.
Defined.

End ClaimsTable.

(** ** The lines of the table block *)
Section TableLines.
Import PyStr SlackRenderer.
Local Open Scope string_scope.
Local Open Scope list_scope.
Local Open Scope nat_scope.

Lemma elem_of_lstrip_by p (s : str) c : c ∈ lstrip_by p s -> c ∈ s.
Proof.
  induction s as [|x s IH]; simpl; [done|].
  destruct (p x); [|done]. intros H%IH. by apply list_elem_of_further.
Qed.

Lemma elem_of_strip_by p (s : str) c : c ∈ strip_by p s -> c ∈ s.
Proof.
  unfold strip_by, rstrip_by. rewrite elem_of_reverse.
  intros H%elem_of_lstrip_by. rewrite elem_of_reverse in H.
  by apply elem_of_lstrip_by in H.
Qed.

Lemma elem_of_split sep (s w : str) c : w ∈ split sep s -> c ∈ w -> c ∈ s.
Proof.
  revert w. induction s as [|x s IH]; intros w; simpl.
  - intros ->%list_elem_of_singleton. by intros ?%elem_of_nil.
  - destruct (x =? sep)%N.
    + intros [->|Hw]%elem_of_cons; [by intros ?%elem_of_nil|].
      intros Hc. apply list_elem_of_further. by apply (IH w).
    + destruct (split sep s) as [|v vs].
      * intros ->%list_elem_of_singleton ->%list_elem_of_singleton.
        apply list_elem_of_here.
      * intros [->|Hw]%elem_of_cons.
        -- intros [->|Hc]%elem_of_cons; [apply list_elem_of_here|].
           apply list_elem_of_further, (IH v); [apply list_elem_of_here|done].
        -- intros Hc. apply list_elem_of_further, (IH w); [|done].
           by apply list_elem_of_further.
Qed.

Lemma elem_of_join sep (ls : list str) c :
  c ∈ join sep ls -> c ∈ sep \/ exists l, l ∈ ls /\ c ∈ l.
Proof.
  induction ls as [|l ls IH]; simpl; [by intros ?%elem_of_nil|].
  destruct ls as [|l' ls].
  - intros H. right. exists l. split; [apply list_elem_of_here|done].
  - intros [H|[H|H]%elem_of_app]%elem_of_app.
    + right. exists l. split; [apply list_elem_of_here|done].
    + by left.
    + destruct (IH H) as [?|(l0 & Hl0 & Hc)]; [by left|].
      right. exists l0. split; [by apply list_elem_of_further|done].
Qed.

Lemma elem_of_ljust (s : str) w c : c ∈ ljust s w -> c ∈ s \/ c = space.
Proof.
  unfold ljust, times. intros [H|H]%elem_of_app; [by left|].
  right. by apply elem_of_replicate_inv in H.
Qed.

(** No cell holds a newline: the markup was split at the newlines. *)
Lemma rows_newline_free (table_md : str) (row : list str) (cell : str) :
  row ∈ rows table_md -> cell ∈ row -> newline ∉ cell.
Proof.
  unfold rows, rows_raw.
  intros (raw & -> & (line & -> & Hline)%list_elem_of_fmap)%list_elem_of_fmap.
  intros (piece & -> & Hpiece)%list_elem_of_fmap.
  apply list_elem_of_filter in Hline as [_ Hline].
  pose proof (split_free newline (strip table_md)) as Hfree.
  rewrite Forall_forall in Hfree. specialize (Hfree line Hline).
  intros Hnl%elem_of_strip_by. apply Hfree.
  by eapply elem_of_strip_by, elem_of_split.
Qed.

Lemma row_text_newline_free (ws : list nat) (row : list str) :
  (forall cell, cell ∈ row -> newline ∉ cell) ->
  newline ∉ TableSpec.row_text ws row.
Proof.
  intros Hrow [H|(l & Hl & Hc)]%elem_of_join.
  - by vm_compute in H; repeat (apply elem_of_cons in H as [?|H]);
      try apply elem_of_nil in H.
  - apply elem_of_zip_with in Hl as (cell & w & -> & Hcell & _).
    apply elem_of_ljust in Hc as [Hc|?]; [|done]. by apply (Hrow cell).
Qed.

Lemma elem_of_pad m (row : list str) cell :
  cell ∈ TableSpec.pad m row -> cell ∈ row \/ cell = [].
Proof.
  unfold TableSpec.pad. intros [H|H]%elem_of_app; [by left|].
  right. by apply elem_of_replicate_inv in H.
Qed.

Lemma body_newline_free (table_md : str) :
  Forall (fun line => newline ∉ line) (TableSpec.body (rows table_md)).
Proof.
  unfold TableSpec.body. apply Forall_fmap, Forall_forall. intros row Hrow.
  simpl. apply row_text_newline_free. intros cell [Hc| ->]%elem_of_pad.
  - by apply (rows_newline_free table_md row).
  - apply not_elem_of_nil.
Qed.

(** The block read back line by line: the fence, the rows, the fence. *)
Lemma split_block (table_md : str) :
  rows table_md <> [] ->
  split newline (TableSpec.block (rows table_md))
  = fence :: TableSpec.body (rows table_md) ++ [fence].
Proof.
  intros Hne. unfold TableSpec.block.
  assert (Hb : TableSpec.body (rows table_md) <> []).
  { unfold TableSpec.body. by destruct (rows table_md). }
  rewrite <- (split_join newline (fence :: _ ++ [fence])); [|done|].
  - f_equal. rewrite join_cons by (by destruct (TableSpec.body _)).
    by rewrite join_snoc.
  - constructor; [by vm_compute; intros H;
      repeat (apply elem_of_cons in H as [?|H]); try apply elem_of_nil in H|].
    apply Forall_app. split; [apply body_newline_free|].
    repeat constructor. by vm_compute; intros H;
      repeat (apply elem_of_cons in H as [?|H]); try apply elem_of_nil in H.
Qed.

Lemma sum_ljust (row : list str) (ws : list nat) :
  Forall2 (fun (cell : str) w => length cell <= w) row ws ->
  sum_list (length <$> zip_with ljust row ws) = sum_list ws.
Proof.
  induction 1 as [|cell w row ws Hle _ IH]; csimpl; [done|].
  rewrite IH, length_ljust. lia.
Qed.

Lemma cells_fit (rws : list (list str)) (row : list str) :
  row ∈ rws ->
  Forall2 (fun (cell : str) w => length cell <= w)
          (TableSpec.pad (TableSpec.max_cols rws) row) (TableSpec.widths rws).
Proof.
  intros Hrow. apply Forall2_same_length_lookup_2.
  - rewrite length_widths. by apply length_pad, length_le_max_cols.
  - intros j cell w Hcell. unfold TableSpec.widths.
    rewrite list_lookup_fmap.
    destruct (seq 0 (TableSpec.max_cols rws) !! j) as [j'|] eqn:Hj; [|done].
    apply lookup_seq in Hj as [-> _]. simpl. intros [= <-].
    unfold TableSpec.col_width. apply max_list_elem_of_le.
    apply list_elem_of_fmap.
    exists (TableSpec.pad (TableSpec.max_cols rws) row). split.
    + by rewrite nth_lookup, Hcell.
    + by apply list_elem_of_fmap_2.
Qed.

Lemma max_cols_pos (table_md : str) :
  rows table_md <> [] -> 1 <= TableSpec.max_cols (rows table_md).
Proof.
  intros Hne. destruct (rows table_md) as [|row rs] eqn:E; [done|].
  assert (Hrow : row ∈ rows table_md) by (rewrite E; apply list_elem_of_here).
  rewrite <- E. etrans; [|by apply length_le_max_cols].
  revert Hrow. unfold rows, rows_raw.
  intros (raw & -> & (line & -> & _)%list_elem_of_fmap)%list_elem_of_fmap.
  rewrite length_fmap.
  pose proof (split_not_nil pipe (strip_chars [pipe] line)).
  destruct (split pipe _); [done|simpl; lia].
Qed.

Lemma length_row_text (rws : list (list str)) (row : list str) :
  row ∈ rws ->
  length (TableSpec.row_text (TableSpec.widths rws)
                             (TableSpec.pad (TableSpec.max_cols rws) row))
  = sum_list (TableSpec.widths rws) + 3 * (TableSpec.max_cols rws - 1).
Proof.
  intros Hrow. unfold TableSpec.row_text.
  pose proof (cells_fit rws row Hrow) as Hfit.
  pose proof (Forall2_length _ _ _ Hfit) as Hlen.
  rewrite length_join, (sum_ljust _ _ Hfit), length_zip_with, Hlen.
  rewrite length_widths. change (length (u " | ")) with 3. lia.
Qed.

End TableLines.

Section ClaimsTableLines.
Import PyStr SlackRenderer.
Local Open Scope list_scope.
Local Open Scope nat_scope.

(** C10: when the markup has a row, the lines of the output between the
    first line and the last, which are the two fences, are as many as the
    rows and all have the same length: the sum of the column widths plus
    three for each of the separators between the columns. *)
Theorem C10_table_lines_same_length (table_md : str) :
  rows table_md <> [] ->
  exists out body,
    _format_table table_md = Some out
    /\ split newline out = fence :: body ++ [fence]
    /\ length body = length (rows table_md)
    /\ 1 <= TableSpec.max_cols (rows table_md)
    /\ Forall (fun line : str =>
                 length line
                 = sum_list (TableSpec.widths (rows table_md))
                   + 3 * (TableSpec.max_cols (rows table_md) - 1))
              body.
Proof.
  intros Hne.
  exists (TableSpec.block (rows table_md)), (TableSpec.body (rows table_md)).
  split; [by apply format_table_block|].
  split; [by apply split_block|].
  split; [unfold TableSpec.body; by rewrite length_fmap|].
  split; [by apply max_cols_pos|].
  unfold TableSpec.body. apply Forall_fmap, Forall_forall.
  intros row Hrow. simpl. by apply length_row_text.
Qed.

Lemma C10_table_lines_same_length_witness :
  exists out body,
    _format_table (u "| a | bb | c |" ++ [newline] ++ u "| ccc | d |")
      = Some out
    /\ split newline out = fence :: body ++ [fence]
    /\ length body = 2
    /\ 1 <= 3
    /\ Forall (fun line : str => length line = 12) body.
Proof.
  apply (C10_table_lines_same_length
           (u "| a | bb | c |" ++ [newline] ++ u "| ccc | d |")).
  by vm_compute.
Defined.

End ClaimsTableLines.

(** ** Further properties of the table formatter *)
Section TableMore.
Import PyStr SlackRenderer.
Local Open Scope string_scope.
Local Open Scope list_scope.
Local Open Scope nat_scope.

Lemma lstrip_by_app_stop p (s b : str) :
  lstrip_by p s <> [] -> lstrip_by p (s ++ b) = lstrip_by p s ++ b.
Proof.
  induction s as [|c s IH]; simpl; [done|]. destruct (p c); [apply IH|done].
Qed.

Lemma last_lstrip_by p (s : str) :
  lstrip_by p s <> [] -> last (lstrip_by p s) = last s.
Proof.
  induction s as [|c s IH]; simpl; [done|].
  destruct (p c); [|done]. intros H. rewrite IH by done.
  destruct s; [done|]. by rewrite last_cons_cons.
Qed.

Lemma head_strip_by p (s : str) c :
  head (strip_by p s) = Some c -> p c = false.
Proof.
  unfold strip_by, rstrip_by. rewrite head_reverse. intros H.
  rewrite last_lstrip_by in H by (intros E; by rewrite E in H).
  rewrite last_reverse in H. apply head_Some in H as [l' H].
  by apply lstrip_by_head in H.
Qed.

Lemma last_strip_by p (s : str) c :
  last (strip_by p s) = Some c -> p c = false.
Proof.
  unfold strip_by, rstrip_by. rewrite last_reverse.
  intros [l' H]%head_Some. by apply lstrip_by_head in H.
Qed.

Lemma strip_by_fixed p (s : str) :
  (forall c, head s = Some c -> p c = false) ->
  (forall c, last s = Some c -> p c = false) ->
  strip_by p s = s.
Proof.
  intros Hh Hl. unfold strip_by, rstrip_by.
  destruct s as [|c s]; [done|].
  rewrite lstrip_by_stop by (by apply Hh).
  destruct (reverse (c :: s)) as [|d r] eqn:E.
  - apply (f_equal length) in E. by rewrite length_reverse in E.
  - rewrite lstrip_by_stop.
    + by rewrite <- E, reverse_involutive.
    + apply Hl. by rewrite <- head_reverse, E.
Qed.

Lemma strip_by_padding p (ws1 s ws2 : str) :
  Forall (fun c => p c = true) ws1 -> Forall (fun c => p c = true) ws2 ->
  strip_by p (ws1 ++ s ++ ws2) = strip_by p s.
Proof.
  intros H1 H2. unfold strip_by. rewrite lstrip_by_app_all by done.
  destruct (lstrip_by p s) as [|c l] eqn:E.
  - apply lstrip_by_nil_inv in E.
    rewrite lstrip_by_all; [done|]. by apply Forall_app.
  - rewrite lstrip_by_app_stop by (by rewrite E). rewrite E.
    unfold rstrip_by. rewrite reverse_app.
    by rewrite lstrip_by_app_all by (by apply Forall_reverse).
Qed.

Lemma not_elem_of_strip_by p (s : str) c : c ∉ s -> c ∉ strip_by p s.
Proof. intros H Hc. by apply H, (elem_of_strip_by p). Qed.

(** X1: the formatter raises on no markup, and what it returns begins with
    a fence followed by a newline and ends with a fence. *)
Theorem X1_format_table_fenced (table_md : str) :
  exists mid : str,
    _format_table table_md = Some (fence ++ [newline] ++ mid ++ fence).
Proof.
  destruct (rows table_md) as [|r rs] eqn:E.
  - exists []. unfold _format_table. by rewrite E.
  - exists (join [newline] (TableSpec.body (rows table_md)) ++ [newline]).
    rewrite format_table_block by (by rewrite E).
    unfold TableSpec.block. by rewrite <- !app_assoc.
Qed.

(** X8: a row of the table has at least one cell, and a cell holds no pipe
    and no newline and has no white space at either end. *)
Theorem X8_cells_clean (table_md : str) (row : list str) :
  row ∈ rows table_md ->
  row <> []
  /\ forall cell, cell ∈ row ->
       (pipe ∉ cell) /\ (newline ∉ cell) /\ strip cell = cell.
Proof.
  intros Hrow. split.
  - revert Hrow. unfold rows, rows_raw.
    intros (raw & -> & (line & -> & _)%list_elem_of_fmap)%list_elem_of_fmap.
    pose proof (split_not_nil pipe (strip_chars [pipe] line)).
    by destruct (split pipe _).
  - intros cell Hcell. split; [|split].
    + revert Hrow Hcell. unfold rows, rows_raw.
      intros (raw & -> & (line & -> & _)%list_elem_of_fmap)%list_elem_of_fmap.
      intros (piece & -> & Hpiece)%list_elem_of_fmap.
      apply not_elem_of_strip_by.
      pose proof (split_free pipe (strip_chars [pipe] line)) as Hfree.
      rewrite Forall_forall in Hfree. by apply Hfree.
    + by apply (rows_newline_free table_md row).
    + revert Hrow Hcell. unfold rows.
      intros (raw & -> & _)%list_elem_of_fmap.
      intros (piece & -> & _)%list_elem_of_fmap.
      apply strip_by_fixed; [apply head_strip_by|apply last_strip_by].
Qed.

Lemma X8_cells_clean_witness :
  [u "a b"; []; u "c"] <> []
  /\ forall cell, cell ∈ [u "a b"; []; u "c"] ->
       (pipe ∉ cell) /\ (newline ∉ cell) /\ strip cell = cell.
Proof.
  apply (X8_cells_clean (u "x" ++ [newline] ++ u "| a b ||  c  |")).
  by vm_compute; apply list_elem_of_further, list_elem_of_here.
Defined.

(** X9: white space before and after the markup does not change the
    block. *)
Theorem X9_format_table_padding (ws1 table_md ws2 : str) :
  Forall (fun c => isspace c = true) ws1 ->
  Forall (fun c => isspace c = true) ws2 ->
  _format_table (ws1 ++ table_md ++ ws2) = _format_table table_md.
Proof.
  intros H1 H2. unfold _format_table, rows, rows_raw, strip.
  by rewrite strip_by_padding.
Qed.

Lemma X9_format_table_padding_witness :
  _format_table ([newline; space] ++ u "a|b" ++ [space; newline; newline])
  = _format_table (u "a|b").
Proof.
  apply (X9_format_table_padding [newline; space] (u "a|b")
           [space; newline; newline]).
  - repeat constructor.
  - repeat constructor.
Defined.

End TableMore.

(** ** Further properties of [render] *)
Section RenderMore.
Import PyStr Re SlackRenderer Buffer Claimed.
Local Open Scope string_scope.
Local Open Scope list_scope.

Lemma join_app sep (l1 l2 : list str) :
  l1 <> [] -> l2 <> [] ->
  join sep (l1 ++ l2) = join sep l1 ++ sep ++ join sep l2.
Proof.
  intros H1 H2. induction l1 as [|p l1 IH]; [done|].
  destruct l1 as [|q l1].
  - simpl. by destruct l2.
  - change ((p :: q :: l1) ++ l2) with (p :: ((q :: l1) ++ l2)).
    rewrite join_cons by (simpl; done). rewrite IH by done.
    rewrite (join_cons sep p (q :: l1)) by done. by rewrite <- !app_assoc.
Qed.

(** X2: render raises on no sequence of tokens, and the output for two
    sequences one after the other is the output for the first, a newline,
    and the output for the second: no token changes what a later token
    renders as. *)
Theorem X2_render_app (ts1 ts2 : list token) :
  ts1 <> [] -> ts2 <> [] ->
  exists out1 out2,
    render ts1 = Some out1 /\ render ts2 = Some out2
    /\ render (ts1 ++ ts2) = Some (out1 ++ [newline] ++ out2).
Proof.
  intros H1 H2.
  exists (join [newline] (entry <$> ts1)), (join [newline] (entry <$> ts2)).
  rewrite !render_entries, fmap_app.
  rewrite join_app; [done|by destruct ts1|by destruct ts2].
Qed.

Lemma X2_render_app_witness :
  exists out1 out2,
    render [Token "NUMBERED_LIST" None (u "a") None 0 1 []] = Some out1
    /\ render [Token "NUMBERED_LIST" None (u "b") None 0 5 []] = Some out2
    /\ render ([Token "NUMBERED_LIST" None (u "a") None 0 1 []]
               ++ [Token "NUMBERED_LIST" None (u "b") None 0 5 []])
       = Some (out1 ++ [newline] ++ out2).
Proof.
  apply (X2_render_app [Token "NUMBERED_LIST" None (u "a") None 0 1 []]
           [Token "NUMBERED_LIST" None (u "b") None 0 5 []]).
  - discriminate.
  - discriminate.
Defined.

(** The counters after the body of the loop, level by level. *)
Lemma render_token_counter (c c' : gmap nat Z) (t : token) (e : str)
    (lvl : nat) :
  render_token c t = Some (c', e) ->
  c' !! lvl
  = if bool_decide (default 0%nat (indent t) = lvl)
       && negb (is_in (type t) ["PARAGRAPH"; "PARAGRAPH_BREAK"])
    then (if String.eqb (type t) "NUMBERED_LIST"
          then Some (number t + 1)%Z else None)
    else c !! lvl.
Proof.
  destruct (String.eqb_spec (type t) "NUMBERED_LIST") as [Hty|Hty].
  - unfold render_token, bookkeeping. rewrite Hty.
    cbn [String.eqb Ascii.eqb Bool.eqb is_in existsb orb negb andb].
    rewrite andb_true_r.
    assert (forall v s, (<[default 0%nat (indent t) := v]> c, s) = (c', e) ->
              v = (number t + 1)%Z ->
              c' !! lvl = if bool_decide (default 0%nat (indent t) = lvl)
                          then Some (number t + 1)%Z else c !! lvl) as Hins.
    { intros v s [= <- _] ->. rewrite lookup_insert.
      destruct (decide (default 0%nat (indent t) = lvl)) as [E|E].
      - by rewrite bool_decide_eq_true_2.
      - by rewrite bool_decide_eq_false_2. }
    destruct (Z.eqb_spec (number t) 1) as [E1|_].
    + intros [= H]. eapply Hins; [by rewrite <- H|]. by rewrite E1.
    + destruct (Z.eqb (number t) _); intros [= H];
        (eapply Hins; [by rewrite <- H|done]).
  - intros H.
    assert (c' = bookkeeping (type t) (default 0%nat (indent t)) c) as ->.
    { revert H. unfold render_token.
      destruct (String.eqb_spec (type t) "NUMBERED_LIST"); [done|].
      destruct (_format_table (value t)); simpl;
      destruct (match_quote_list (value t)) as [[??]|];
      repeat match goal with
      | |- context [String.eqb (type t) ?s] => destruct (String.eqb (type t) s)
      end; congruence. }
    unfold bookkeeping, is_in. simpl existsb.
    destruct (String.eqb_spec (type t) "NUMBERED_LIST"); [done|].
    destruct (String.eqb_spec (type t) "UNORDERED_LIST") as [E|_];
      [rewrite E; simpl|];
    [|destruct (String.eqb_spec (type t) "LETTERED_LIST") as [E|_];
      [rewrite E; simpl|simpl;
       destruct (String.eqb (type t) "PARAGRAPH");
       [by rewrite andb_false_r|];
       destruct (String.eqb (type t) "PARAGRAPH_BREAK");
       [by rewrite andb_false_r|]; simpl]];
    rewrite andb_true_r, lookup_delete;
    (destruct (decide (default 0%nat (indent t) = lvl)) as [E'|E'];
     [by rewrite bool_decide_eq_true_2 | by rewrite bool_decide_eq_false_2]).
Qed.

Lemma render_loop_app (c : gmap nat Z) (out : list str) (ts1 ts2 : list token) :
  render_loop c out (ts1 ++ ts2)
  = '(c1, out1) ← render_loop c out ts1; render_loop c1 out1 ts2.
Proof.
  revert c out. induction ts1 as [|t ts1 IH]; intros c out; simpl; [done|].
  destruct (render_token c t) as [[c1 e]|]; simpl; [apply IH|done].
Qed.

(** A run of tokens that are paragraphs or paragraph breaks, or stand at
    other indent levels, leaves the counter of a level as it was. *)
Lemma render_loop_frame (lvl : nat) (c : gmap nat Z) (out : list str)
    (ts : list token) :
  Forall (fun t => is_in (type t) ["PARAGRAPH"; "PARAGRAPH_BREAK"] = true
                   \/ default 0%nat (indent t) <> lvl) ts ->
  exists c' out', render_loop c out ts = Some (c', out')
                  /\ c' !! lvl = c !! lvl.
Proof.
  intros H. revert c out.
  induction H as [|t ts Ht _ IH]; intros c out; simpl; [eauto|].
  destruct (render_token_entry c t) as [c1 H1]. rewrite H1. simpl.
  destruct (IH c1 (out ++ [entry t])) as (c' & out' & -> & Hc').
  exists c', out'. split; [done|]. rewrite Hc'.
  rewrite (render_token_counter _ _ _ _ lvl H1).
  destruct Ht as [-> | Hne]; [by rewrite andb_false_r|].
  by rewrite bool_decide_eq_false_2.
Qed.

(** X3: over a run of tokens each of which is a PARAGRAPH or a
    PARAGRAPH_BREAK or stands at an indent level other than [lvl], the loop
    leaves the counter of [lvl] as it found it. *)
Theorem X3_counter_frame (lvl : nat) (c : gmap nat Z) (out : list str)
    (ts : list token) :
  Forall (fun t => is_in (type t) ["PARAGRAPH"; "PARAGRAPH_BREAK"] = true
                   \/ default 0%nat (indent t) <> lvl) ts ->
  exists c' out', render_loop c out ts = Some (c', out')
                  /\ c' !! lvl = c !! lvl.
Proof. apply render_loop_frame. Qed.

Lemma X3_counter_frame_witness :
  exists c' out',
    render_loop {[1%nat := 4%Z]} []
      [Token "PARAGRAPH" (Some 1%nat) (u "p") None 0 0 [];
       Token "HEADER" (Some 0%nat) (u "h") None 0 0 [];
       Token "NUMBERED_LIST" (Some 2%nat) (u "n") None 0 1 []]
    = Some (c', out')
    /\ c' !! 1%nat = ({[1%nat := 4%Z]} : gmap nat Z) !! 1%nat.
Proof.
  apply (X3_counter_frame 1 {[1%nat := 4%Z]} []).
  repeat (apply Forall_cons; split); [| | |by apply Forall_nil].
  - left. reflexivity.
  - right. discriminate.
  - right. discriminate.
Defined.

(** X4: the counter of a level after the loop is decided by the last token
    at that level that is neither a PARAGRAPH nor a PARAGRAPH_BREAK: the
    number of that token plus one when it is a NUMBERED_LIST, no counter
    when it is of another type. *)
Theorem X4_counter_last_token (c : gmap nat Z) (out : list str)
    (ts1 ts2 : list token) (t : token) :
  is_in (type t) ["PARAGRAPH"; "PARAGRAPH_BREAK"] = false ->
  Forall (fun t' => is_in (type t') ["PARAGRAPH"; "PARAGRAPH_BREAK"] = true
                    \/ default 0%nat (indent t') <> default 0%nat (indent t))
         ts2 ->
  exists c' out',
    render_loop c out (ts1 ++ t :: ts2) = Some (c', out')
    /\ c' !! default 0%nat (indent t)
       = if String.eqb (type t) "NUMBERED_LIST"
         then Some (number t + 1)%Z else None.
Proof.
  intros Hty Hts2. rewrite render_loop_app.
  destruct (render_loop_entries c out ts1) as [c1 ->]. simpl.
  destruct (render_token_entry c1 t) as [c2 H2]. rewrite H2. simpl.
  destruct (render_loop_frame _ c2 ((out ++ (entry <$> ts1)) ++ [entry t])
              ts2 Hts2) as (c' & out' & -> & Hc').
  exists c', out'. split; [done|]. rewrite Hc'.
  rewrite (render_token_counter _ _ _ _ (default 0%nat (indent t)) H2).
  by rewrite bool_decide_eq_true_2, Hty by done.
Qed.

Lemma X4_counter_last_token_witness :
  exists c' out',
    render_loop ∅ []
      ([Token "NUMBERED_LIST" None (u "a") None 0 1 []]
       ++ Token "NUMBERED_LIST" None (u "b") None 0 7 []
       :: [Token "PARAGRAPH" None (u "p") None 0 0 [];
           Token "UNORDERED_LIST" (Some 2%nat) (u "x") None 0 0 (u "-")])
    = Some (c', out')
    /\ c' !! 0%nat = Some 8%Z.
Proof.
  apply (X4_counter_last_token ∅ []
           [Token "NUMBERED_LIST" None (u "a") None 0 1 []]
           [Token "PARAGRAPH" None (u "p") None 0 0 [];
            Token "UNORDERED_LIST" (Some 2%nat) (u "x") None 0 0 (u "-")]
           (Token "NUMBERED_LIST" None (u "b") None 0 7 [])).
  - reflexivity.
  - repeat (apply Forall_cons; split); [| |by apply Forall_nil].
    + left. reflexivity.
    + right. discriminate.
Defined.

End RenderMore.

(** ** Further properties of the header and quote branches *)
Section BranchesMore.
Import PyStr Re SlackRenderer Buffer Claimed.
Local Open Scope string_scope.
Local Open Scope list_scope.

Lemma lazy_dots_hit {R} (k : str -> option R) (s : str) r :
  k s = Some r -> lazy_dots k s = Some ([], r).
Proof. intros H. destruct s; simpl; by rewrite H. Qed.

(** Before the end of an inner text that is followed by the closing
    asterisks only, the closing asterisks and [$] do not match. *)
Lemma stars_dollar_inside n c (g : str) :
  (1 <= n)%nat -> stars n dollar (c :: g ++ replicate n star) = None.
Proof.
  intros Hn. destruct (stars n dollar _) as [r|] eqn:E; [|done]. exfalso.
  apply stars_Some in E as (s' & Hs & Hd).
  assert (length s' = S (length g)) as Hlen.
  { apply (f_equal length) in Hs. revert Hs. simpl.
    rewrite !length_app, !length_replicate. lia. }
  destruct s' as [|x [|y s']]; [done| |done].
  destruct g; [|done]. simpl in Hd.
  destruct (N.eqb_spec x newline) as [->|]; [|done].
  apply (f_equal last) in Hs. rewrite last_snoc in Hs.
  destruct n as [|n]; [lia|].
  rewrite replicate_S_end in Hs.
  change (c :: [] ++ replicate n star ++ [star])
    with ((c :: replicate n star) ++ [star]) in Hs.
  by rewrite last_snoc in Hs.
Qed.

Lemma lazy_dots_to_end n (g : str) :
  (1 <= n)%nat -> Forall (fun c => dot c = true) g ->
  lazy_dots (stars n dollar) (g ++ replicate n star) = Some (g, []).
Proof.
  intros Hn. induction 1 as [|c g Hc _ IH].
  - apply lazy_dots_hit.
    rewrite app_nil_l, <- (app_nil_r (replicate n star)).
    by rewrite stars_replicate.
  - simpl. rewrite stars_dollar_inside by done. by rewrite Hc, IH.
Qed.

(** The anchored substitution on a text wrapped in asterisks gives the
    text between them. *)
Lemma sub_anchored_span_wrapped n (inner : str) :
  (1 <= n)%nat -> inner <> [] -> Forall (fun c => dot c = true) inner ->
  sub_anchored_span n (replicate n star ++ inner ++ replicate n star) = inner.
Proof.
  intros Hn Hne Hd. unfold sub_anchored_span, span.
  rewrite stars_replicate. destruct inner as [|c g]; [done|].
  apply Forall_cons in Hd as [Hc Hg].
  rewrite <- app_comm_cons, Hc, lazy_dots_to_end by done.
  simpl. by rewrite app_nil_r.
Qed.

(** More asterisks than the text begins with do not wrap it. *)
Lemma fullmatch_span_wider n m (inner : str) :
  (n < m)%nat -> inner <> [] -> head inner <> Some star ->
  fullmatch_span m (replicate n star ++ inner ++ replicate n star) = false.
Proof.
  intros Hlt Hne Hhd.
  destruct (fullmatch_span m _) eqn:E; [|done]. exfalso.
  apply fullmatch_span_iff in E as (i & _ & _ & E).
  apply (f_equal (fun l => l !! n)) in E. simpl in E.
  rewrite lookup_app_r in E by (rewrite length_replicate; lia).
  rewrite length_replicate, Nat.sub_diag in E.
  rewrite (lookup_app_l (replicate m star)) in E
    by (rewrite length_replicate; lia).
  rewrite lookup_replicate_2 in E by done.
  destruct inner as [|c g]; [done|]. simpl in E. by apply Hhd.
Qed.

Lemma header_text_wrapped n (inner value : str) :
  n ∈ [1; 2; 3]%nat -> inner <> [] ->
  Forall (fun c => dot c = true) inner -> head inner <> Some star ->
  header_text (replicate n star ++ inner ++ replicate n star) value
  = emphasis n inner.
Proof.
  intros Hn Hne Hd Hhd. unfold header_text.
  assert (Hfull : fullmatch_span n
            (replicate n star ++ inner ++ replicate n star) = true).
  { apply fullmatch_span_iff. by exists inner. }
  assert (Hsub : (1 <= n)%nat ->
            sub_anchored_span n
              (replicate n star ++ inner ++ replicate n star) = inner).
  { intros. by apply sub_anchored_span_wrapped. }
  repeat (apply elem_of_cons in Hn as [->|Hn]).
  - rewrite (fullmatch_span_wider 1 3), (fullmatch_span_wider 1 2) by (done || lia).
    rewrite Hfull, Hsub by lia. done.
  - rewrite (fullmatch_span_wider 2 3) by (done || lia).
    rewrite Hfull, Hsub by lia. done.
  - rewrite Hfull, Hsub by lia. done.
  - by apply elem_of_nil in Hn.
Qed.

(** X5: a HEADER token whose raw text is an inner text between one, two
    or three asterisks on each side, the inner text not empty, without a
    newline and not beginning with an asterisk, renders as the indent
    spaces and the inner text alone, bold for two asterisks and bold and
    italic for one or three. *)
Theorem X5_header_wrapped (t : token) (n : nat) (inner : str)
    (ts1 ts2 : list token) :
  type t = "HEADER" ->
  raw t = Some (replicate n star ++ inner ++ replicate n star) ->
  n ∈ [1; 2; 3]%nat -> inner <> [] ->
  Forall (fun c => dot c = true) inner -> head inner <> Some star ->
  render (ts1 ++ t :: ts2)
  = Some (join [newline]
            ((entry <$> ts1)
             ++ (times space (default 0%nat (indent t)) ++ emphasis n inner)
             :: (entry <$> ts2))).
Proof.
  intros Hty Hraw Hn Hne Hd Hhd. rewrite render_around. do 4 f_equal.
  unfold entry, render_token. rewrite Hty, Hraw.
  cbn [String.eqb Ascii.eqb Bool.eqb].
  change (default [] (Some ?x)) with x.
  by rewrite header_text_wrapped.
Qed.

Lemma X5_header_wrapped_witness :
  render [Token "HEADER" (Some 1%nat) (u "A*B") (Some (u "*A*B*")) 0 0 []]
  = Some (u " *_A*B_*").
Proof.
  apply (X5_header_wrapped
           (Token "HEADER" (Some 1%nat) (u "A*B") (Some (u "*A*B*")) 0 0 [])
           1 (u "A*B") [] []).
  - reflexivity.
  - reflexivity.
  - set_solver.
  - discriminate.
  - repeat (apply Forall_cons; split); [| | |by apply Forall_nil];
      reflexivity.
  - discriminate.
Defined.

Lemma header_text_plain (raw value : str) :
  star ∉ raw ->
  header_text raw value
  = [star] ++ filter (fun c => c <> star) value ++ [star].
Proof.
  intros Hraw.
  assert (Hin : forall n (a b : str), (1 <= n)%nat ->
            raw = a ++ replicate n star ++ b -> False).
  { intros n a b Hn ->. apply Hraw.
    apply elem_of_app. right. apply elem_of_app. left.
    apply elem_of_replicate. split; [done|lia]. }
  assert (Hfull : forall n, (1 <= n)%nat -> fullmatch_span n raw = false).
  { intros n Hn. destruct (fullmatch_span n raw) eqn:E; [|done]. exfalso.
    apply fullmatch_span_iff in E as (i & _ & _ & E).
    by apply (Hin n [] (i ++ replicate n star) Hn). }
  assert (Hsearch : forall n, (1 <= n)%nat -> search_span n raw = false).
  { intros n Hn. destruct (search_span n raw) eqn:E; [|done]. exfalso.
    apply search_span_iff in E as (pre & i & rest & _ & _ & E).
    by apply (Hin n pre (i ++ replicate n star ++ rest) Hn). }
  unfold header_text.
  rewrite !Hfull, !Hsearch by lia.
  unfold sub_star_runs. by rewrite sub_star_runs_from_filter.
Qed.

(** X6: a HEADER token whose raw text holds no asterisk (or that has no
    raw text) renders as the indent spaces and its value in bold, all the
    asterisks of the value taken out. *)
Theorem X6_header_plain (t : token) (ts1 ts2 : list token) :
  type t = "HEADER" ->
  star ∉ default [] (raw t) ->
  render (ts1 ++ t :: ts2)
  = Some (join [newline]
            ((entry <$> ts1)
             ++ (times space (default 0%nat (indent t))
                   ++ [star] ++ filter (fun c => c <> star) (value t)
                   ++ [star])
             :: (entry <$> ts2))).
Proof.
  intros Hty Hraw. rewrite render_around. do 4 f_equal.
  unfold entry, render_token. rewrite Hty.
  cbn [String.eqb Ascii.eqb Bool.eqb].
  by rewrite header_text_plain.
Qed.

Lemma X6_header_plain_witness :
  render [Token "HEADER" None (u "a **b** c") (Some (u "a b c")) 0 0 []]
  = Some (u "*a b c*").
Proof.
  apply (X6_header_plain
           (Token "HEADER" None (u "a **b** c") (Some (u "a b c")) 0 0 [])
           [] []).
  - reflexivity.
  - by vm_compute; intros H;
      repeat (apply elem_of_cons in H as [?|H]); try apply elem_of_nil in H.
Defined.

(** X10: whichever of its tests on the raw text succeeds, a HEADER token
    renders as the indent spaces, an asterisk, a text and an asterisk. *)
Theorem X10_header_bold (t : token) :
  type t = "HEADER" ->
  exists body : str,
    entry t = times space (default 0%nat (indent t))
                ++ [star] ++ body ++ [star].
Proof.
  intros Hty. unfold entry, render_token. rewrite Hty.
  cbn [String.eqb Ascii.eqb Bool.eqb]. unfold header_text.
  repeat match goal with
  | |- context [if ?b then _ else _] => destruct b
  end;
  match goal with
  | |- context [u "*_" ++ ?x ++ u "_*"] =>
      exists ([95%N] ++ x ++ [95%N]); by rewrite <- !app_assoc
  | |- context [u "*" ++ ?x ++ u "*"] => by exists x
  end.
Qed.

Lemma X10_header_bold_witness :
  exists body : str,
    entry (Token "HEADER" (Some 2%nat) (u "x") (Some (u "a *b* c")) 0 0 [])
    = times space 2 ++ [star] ++ body ++ [star].
Proof.
  apply (X10_header_bold
           (Token "HEADER" (Some 2%nat) (u "x") (Some (u "a *b* c")) 0 0 [])).
  reflexivity.
Defined.

Lemma match_quote_list_None (v : str) :
  (forall b w s, lstrip_by isspace v = b :: w :: s ->
                 b = dash \/ b = star -> isspace w = false) ->
  match_quote_list v = None.
Proof.
  intros H. unfold match_quote_list.
  destruct (lstrip_by isspace v) as [|b [|w s]]; [done|by destruct (_ || _)|].
  destruct (N.eqb_spec b dash) as [Hb|_]; simpl.
  - by rewrite (H b w s eq_refl (or_introl Hb)).
  - destruct (N.eqb_spec b star) as [Hb|_]; [|done].
    by rewrite (H b w s eq_refl (or_intror Hb)).
Qed.

(** X7: a BLOCK_QUOTE token whose value, after its leading white space,
    does not begin with a dash or an asterisk followed by white space,
    renders as the quote prefix, a space, the indent spaces and the value
    as it is. *)
Theorem X7_block_quote_verbatim (t : token) (ts1 ts2 : list token) :
  type t = "BLOCK_QUOTE" ->
  (forall b w s, lstrip_by isspace (value t) = b :: w :: s ->
                 b = dash \/ b = star -> isspace w = false) ->
  render (ts1 ++ t :: ts2)
  = Some (join [newline]
            ((entry <$> ts1)
             ++ (times gt (level t) ++ [space]
                   ++ times space (default 0%nat (indent t)) ++ value t)
             :: (entry <$> ts2))).
Proof.
  intros Hty Hv. rewrite render_around. do 4 f_equal.
  unfold entry, render_token. rewrite Hty.
  cbn [String.eqb Ascii.eqb Bool.eqb].
  by rewrite match_quote_list_None.
Qed.

Lemma X7_block_quote_verbatim_witness :
  render [Token "BLOCK_QUOTE" (Some 2%nat) (u "**bold** text") None 1 0 []]
  = Some (u ">   **bold** text").
Proof.
  apply (X7_block_quote_verbatim
           (Token "BLOCK_QUOTE" (Some 2%nat) (u "**bold** text") None 1 0 [])
           [] []).
  - reflexivity.
  - intros b w s [= <- <- _] _. reflexivity.
Defined.

End BranchesMore.

(** ** Blank lines in the markup of a table *)
Section TableBlankLines.
Import PyStr SlackRenderer.
Local Open Scope string_scope.
Local Open Scope list_scope.

Lemma split_app_sep sep (a b : str) :
  split sep (a ++ sep :: b) = split sep a ++ split sep b.
Proof.
  induction a as [|c a IH]; simpl.
  - by rewrite N.eqb_refl.
  - destruct (c =? sep)%N; [by rewrite IH|]. rewrite IH.
    pose proof (split_not_nil sep a). by destruct (split sep a).
Qed.

Lemma split_all_space_blank (b : str) :
  Forall (fun c => isspace c = true) b ->
  filter (fun row => strip row <> []) (split newline b) = [].
Proof.
  intros Hb.
  assert (Forall (fun row => strip row = []) (split newline b)) as H.
  { apply Forall_forall. intros row Hrow. apply strip_by_all.
    apply Forall_forall. intros c Hc. rewrite Forall_forall in Hb.
    by apply Hb, (elem_of_split newline b row). }
  induction H as [|row l Hrow _ IH]; [done|].
  by rewrite filter_cons_False by (by intros ?).
Qed.

(** Stripping a text whose two ends both hold a character that stays
    touches the two ends only. *)
Lemma strip_by_middle p (a m b : str) :
  lstrip_by p a <> [] -> rstrip_by p b <> [] ->
  strip_by p (a ++ m ++ b) = lstrip_by p a ++ m ++ rstrip_by p b.
Proof.
  intros Ha Hb. unfold strip_by.
  rewrite lstrip_by_app_stop by done. unfold rstrip_by in *.
  rewrite !reverse_app.
  assert (lstrip_by p (reverse b) <> []) as Hb'.
  { intros E. apply Hb. by rewrite E. }
  rewrite <- app_assoc, lstrip_by_app_stop by done.
  by rewrite !reverse_app, !reverse_involutive, <- app_assoc.
Qed.

Lemma strip_by_lpad p (ws s : str) :
  Forall (fun c => p c = true) ws -> strip_by p (ws ++ s) = strip_by p s.
Proof.
  intros H. rewrite <- (app_nil_r s) at 1. by apply strip_by_padding.
Qed.

Lemma strip_by_rpad p (s ws : str) :
  Forall (fun c => p c = true) ws -> strip_by p (s ++ ws) = strip_by p s.
Proof. intros H. by apply (strip_by_padding p [] s ws). Qed.

Lemma lstrip_by_nil_dec p (s : str) :
  lstrip_by p s = [] \/ lstrip_by p s <> [].
Proof. destruct (lstrip_by p s); [by left | by right]. Qed.

Lemma rstrip_by_nil_inv p (s : str) :
  rstrip_by p s = [] -> Forall (fun c => p c = true) s.
Proof.
  unfold rstrip_by. intros H. apply (f_equal reverse) in H.
  rewrite reverse_involutive in H. apply lstrip_by_nil_inv in H.
  by rewrite Forall_reverse in H.
Qed.

(** The lines that count are the same with and without a stretch of white
    space standing between two newlines. *)
Lemma lines_without_blank (md1 b md2 : str) :
  Forall (fun c => isspace c = true) b ->
  filter (fun row => strip row <> [])
         (split newline (strip (md1 ++ [newline] ++ b ++ [newline] ++ md2)))
  = filter (fun row => strip row <> [])
           (split newline (strip (md1 ++ [newline] ++ md2))).
Proof.
  intros Hb. unfold strip.
  assert (Hnl : Forall (fun c => isspace c = true) [newline])
    by (by repeat constructor).
  destruct (lstrip_by_nil_dec isspace md1) as [E1|E1].
  { apply lstrip_by_nil_inv in E1. rewrite !app_assoc.
    rewrite !strip_by_lpad; [done|..];
      repeat (apply Forall_app; split); done. }
  destruct (rstrip_by isspace md2) as [|x r] eqn:E2.
  { apply rstrip_by_nil_inv in E2.
    rewrite !strip_by_rpad; [done|..];
      repeat (apply Forall_app; split); done. }
  replace (md1 ++ [newline] ++ b ++ [newline] ++ md2)
    with (md1 ++ ([newline] ++ b ++ [newline]) ++ md2)
    by (by rewrite <- !app_assoc).
  rewrite !strip_by_middle by (done || by rewrite E2).
  rewrite <- !app_assoc. simpl.
  rewrite !split_app_sep, !filter_app.
  pose proof (split_all_space_blank b Hb) as Hblank. unfold strip in Hblank.
  by rewrite Hblank.
Qed.

(** X11: white space between two newlines of the markup, blank lines that
    is, does not change the block. *)
Theorem X11_format_table_blank_lines (md1 b md2 : str) :
  Forall (fun c => isspace c = true) b ->
  _format_table (md1 ++ [newline] ++ b ++ [newline] ++ md2)
  = _format_table (md1 ++ [newline] ++ md2).
Proof.
  intros Hb. unfold _format_table, rows, rows_raw.
  by rewrite lines_without_blank.
Qed.

Lemma X11_format_table_blank_lines_witness :
  _format_table (u "a|b" ++ [newline] ++ [space; newline; 9%N]
                   ++ [newline] ++ u "c|d")
  = _format_table (u "a|b" ++ [newline] ++ u "c|d").
Proof.
  apply (X11_format_table_blank_lines (u "a|b") [space; newline; 9%N]
           (u "c|d")).
  repeat (apply Forall_cons; split); [| | |by apply Forall_nil]; reflexivity.
Defined.

End TableBlankLines.

Section HeaderValue.
Import PyStr Re SlackRenderer Buffer.
Local Open Scope string_scope.
Local Open Scope list_scope.

(** A text wrapped as a whole holds a span, so the hypothesis below covers
    the wrapped raw texts too. *)
Lemma fullmatch_span_search n (s : str) :
  fullmatch_span n s = true -> search_span n s = true.
Proof.
  intros (inner & Hne & Hd & ->)%fullmatch_span_iff.
  apply search_span_iff. exists [], inner, []. by rewrite app_nil_r.
Qed.

(** X12: when the raw text of a HEADER token holds a span between one, two
    or three asterisks, the value of the token has no part in what the
    token renders as. *)
Theorem X12_header_value_unused (n : nat) (raw v1 v2 : str)
    (i : option nat) (l : nat) (k : Z) (b : str) :
  n ∈ [1; 2; 3]%nat ->
  search_span n raw = true ->
  entry (Token "HEADER" i v1 (Some raw) l k b)
  = entry (Token "HEADER" i v2 (Some raw) l k b).
Proof.
  intros Hn Hs. unfold entry, render_token. simpl. f_equal.
  unfold header_text.
  repeat match goal with
  | |- context [if ?c then _ else _] => destruct c eqn:?
  end; try done.
  exfalso. repeat (apply elem_of_cons in Hn as [->|Hn]); try congruence.
  by apply elem_of_nil in Hn.
Qed.

Lemma X12_header_value_unused_witness :
  entry (Token "HEADER" None (u "x") (Some (u "a *b* c")) 0 0 [])
  = entry (Token "HEADER" None (u "something else") (Some (u "a *b* c"))
                 0 0 []).
Proof.
  apply (X12_header_value_unused 1 (u "a *b* c")).
  - set_solver.
  - reflexivity.
Defined.

End HeaderValue.
